(** * Hanson: the income ledger and the colour helpers

    A shallow embedding of [hanson/models/transaction.py] and of the
    [Color] class of [hanson/models/color.py], with the properties the
    specification states about them.

    The database is a record of tables (lists of rows, newest row first)
    and of the sequences that hand out primary keys.  Code that runs
    against the open database transaction [tx] is a computation in a
    state-and-exception monad over that record. *)

From Stdlib Require Import ZArith List Bool Lia String Ascii HexString.
From Stdlib Require Import Floats.SpecFloat.
From ExtLib Require Import Structures.Monad Structures.MonadState Structures.MonadExc.
From ExtLib Require Import Data.Monads.StateMonad Data.Monads.EitherMonad.
Import ListNotations.
Import MonadNotation.
Local Open Scope monad_scope.
Local Open Scope Z_scope.

#[local] Existing Instance Monad_stateT.

(** ** Python exceptions that the modelled code can raise *)

Inductive Exception : Type :=
  | AssertionError
  | ValueError
  | IndexError
  | OverflowError
  | ForeignKeyViolation.

(** ** hanson.models.currency *)

Module Points.

(** Modelled from the spec: [hanson/models/currency.py] is not among the
    sources.  Section 4.1 describes an amount as a fixed-precision
    decimal whose arithmetic is exact; it is represented here by the
    number of smallest units it holds, so that [Decimal] addition and
    comparison are the ones of [Z]. *)
Definition Decimal := Z.

Record t : Type := Points { amount : Decimal }.

(** [Points.__add__] *)
Definition add (a b : t) : t := Points (amount a + amount b).

(** [Points.__eq__] *)
Definition eqb (a b : t) : bool := amount a =? amount b.

End Points.

(** ** The persisted tables *)

Module Schema.

(** Modelled from the spec: the table declarations are not among the
    sources.  The columns are those of section 6, with the column names
    the queries of [transaction.py] use. *)

Inductive transaction_type : Type := income | transfer | trade.

Inductive owner : Type :=
  | User (user_id : Z)
  | MarketPoints (market_id : Z)
  | MarketPool (market_id outcome_id : Z).

Definition owner_eqb (a b : owner) : bool :=
  match a, b with
  | User u, User v => u =? v
  | MarketPoints m, MarketPoints n => m =? n
  | MarketPool m o, MarketPool n p => (m =? n) && (o =? p)
  | _, _ => false
  end.

Record account_row : Type := AccountRow
  { account_pk : Z; account_owner : owner }.

Record transaction_row : Type := TransactionRow
  { transaction_pk : Z; type : transaction_type }.

Record mutation_row : Type := MutationRow
  { mutation_pk : Z;
    transaction_id : Z;
    debit_account_id : Z;
    amount : Points.Decimal }.

Record account_balance_row : Type := AccountBalanceRow
  { account_id : Z;
    mutation_id : Z;
    post_balance : Points.Decimal }.

(** The state one open unit of work sees. A table lists its rows from the
    newest to the oldest; a sequence holds the next key it hands out. *)
Record Database : Type := mkDatabase
  { account : list account_row;
    transaction : list transaction_row;
    mutation : list mutation_row;
    account_balance : list account_balance_row;
    account_id_seq : Z;
    transaction_id_seq : Z;
    mutation_id_seq : Z }.

Definition empty : Database :=
  {| account := []; transaction := []; mutation := []; account_balance := [];
     account_id_seq := 1; transaction_id_seq := 1; mutation_id_seq := 1 |}.

End Schema.
Import Schema.

(** ** hanson.database *)

(** A computation inside the database transaction [tx]: it reads and
    writes the tables and either returns a value or raises. *)
Definition Tx : Type -> Type := stateT Database (sum Exception).

Definition run {A : Type} (c : Tx A) (db : Database) : Exception + A * Database :=
  runStateT c db.

(** Python's [assert]. *)
Definition assert (b : bool) : Tx unit :=
  if b then ret tt else raise AssertionError.

(** SQL's [COALESCE] with two arguments. *)
Definition COALESCE {A : Type} (x : option A) (default : A) : A :=
  match x with
  | Some v => v
  | None => default
  end.

(** Modelled from the spec: the SQL function [account_current_balance] is
    declared with the tables.  Section 6 reads the current balance with the
    query "by (account_id, mutation_id DESC)": the snapshot of the account
    with the greatest mutation id, and NULL when the account has none. *)
Fixpoint latest_snapshot (acct : Z) (rows : list account_balance_row)
  : option account_balance_row :=
  match rows with
  | [] => None
  | r :: rows' =>
      if account_id r =? acct then
        match latest_snapshot acct rows' with
        | Some r' => if mutation_id r' <? mutation_id r then Some r else Some r'
        | None => Some r
        end
      else latest_snapshot acct rows'
  end.

Definition account_current_balance (db : Database) (acct : Z) : option Points.Decimal :=
  option_map post_balance (latest_snapshot acct (account_balance db)).

(** ** hanson.models.account *)

Module UserAccount.

Record t : Type := UserAccount { id : Z; balance : Points.t }.

Definition find_points_account (user_id : Z) (db : Database) : option account_row :=
  find (fun r => owner_eqb (account_owner r) (User user_id)) (account db).

(** Modelled from the spec: [hanson/models/account.py] is not among the
    sources.  Section 4.2: an idempotent get-or-create, the first caller
    creates the row and later callers retrieve it.  The [balance] the
    account object carries is the current balance of section 4.4. *)
Definition ensure_points_account (user_id : Z) : Tx t :=
  db <- get ;;
  match find_points_account user_id db with
  | Some r =>
      ret (UserAccount (account_pk r)
             (Points.Points (COALESCE (account_current_balance db (account_pk r)) 0)))
  | None =>
      let new_id := account_id_seq db in
      put {| account := AccountRow new_id (User user_id) :: account db;
             transaction := transaction db;
             mutation := mutation db;
             account_balance := account_balance db;
             account_id_seq := new_id + 1;
             transaction_id_seq := transaction_id_seq db;
             mutation_id_seq := mutation_id_seq db |} ;;
      ret (UserAccount new_id
             (Points.Points (COALESCE (account_current_balance db new_id) 0)))
  end.

End UserAccount.

(** ** hanson.models.transaction *)

(** [INSERT INTO "transaction" (type) VALUES (...) RETURNING id] *)
Definition insert_transaction (ty : transaction_type) : Tx Z :=
  db <- get ;;
  let new_id := transaction_id_seq db in
  put {| account := account db;
         transaction := TransactionRow new_id ty :: transaction db;
         mutation := mutation db;
         account_balance := account_balance db;
         account_id_seq := account_id_seq db;
         transaction_id_seq := new_id + 1;
         mutation_id_seq := mutation_id_seq db |} ;;
  ret new_id.

(** Modelled from the spec: section 6 declares [transaction_id],
    [account_id] and [mutation_id] as foreign keys.  The storage layer
    refuses a row whose referencing column holds no key of the table it
    references; the statement then raises and writes nothing. *)
Definition has_key (k : Z) (keys : list Z) : bool := existsb (Z.eqb k) keys.

(** [INSERT INTO "mutation" (transaction_id, debit_account_id, amount)
    VALUES (%s, %s, %s) RETURNING id] *)
Definition insert_mutation (tid acct : Z) (amt : Points.Decimal) : Tx Z :=
  db <- get ;;
  if has_key tid (map transaction_pk (transaction db))
     && has_key acct (map account_pk (account db))
  then
    let new_id := mutation_id_seq db in
    put {| account := account db;
           transaction := transaction db;
           mutation := MutationRow new_id tid acct amt :: mutation db;
           account_balance := account_balance db;
           account_id_seq := account_id_seq db;
           transaction_id_seq := transaction_id_seq db;
           mutation_id_seq := new_id + 1 |} ;;
    ret new_id
  else raise ForeignKeyViolation.

(** [INSERT INTO "account_balance" (account_id, mutation_id, post_balance)
    VALUES (acct, mid, COALESCE(account_current_balance(acct), 0) + amt)
    RETURNING post_balance] *)
Definition insert_account_balance (acct mid : Z) (amt : Points.Decimal)
  : Tx Points.Decimal :=
  db <- get ;;
  if has_key acct (map account_pk (account db))
     && has_key mid (map mutation_pk (mutation db))
  then
    let post := COALESCE (account_current_balance db acct) 0 + amt in
    put {| account := account db;
           transaction := transaction db;
           mutation := mutation db;
           account_balance := AccountBalanceRow acct mid post :: account_balance db;
           account_id_seq := account_id_seq db;
           transaction_id_seq := transaction_id_seq db;
           mutation_id_seq := mutation_id_seq db |} ;;
    ret post
  else raise ForeignKeyViolation.

(** [create_transaction_income(tx, user_id, amount)].  The first assertion
    of the source, [isinstance(account.balance, Points)], is the type of
    [UserAccount.balance] here. *)
Definition create_transaction_income (user_id : Z) (amount : Points.t) : Tx Z :=
  account <- UserAccount.ensure_points_account user_id ;;
  transaction_id <- insert_transaction income ;;
  mutation_id <- insert_mutation transaction_id (UserAccount.id account)
                   (Points.amount amount) ;;
  post_balance <- insert_account_balance (UserAccount.id account) mutation_id
                    (Points.amount amount) ;;
  assert (Points.eqb (Points.add amount (UserAccount.balance account))
            (Points.Points post_balance)) ;;
  ret transaction_id.

(** ** Views of the ledger used by the statements *)

(** Section 4.4, [current_balance]: the latest snapshot of the account, or
    zero for an account without snapshots. *)
Definition current_balance (db : Database) (acct : Z) : Points.Decimal :=
  COALESCE (account_current_balance db acct) 0.

(** The account id [ensure_points_account] answers with in [db]. *)
Definition points_account_id (user_id : Z) (db : Database) : Z :=
  match UserAccount.find_points_account user_id db with
  | Some r => account_pk r
  | None => account_id_seq db
  end.

(** The account table after [ensure_points_account]. *)
Definition ensured_accounts (user_id : Z) (db : Database) : list account_row :=
  match UserAccount.find_points_account user_id db with
  | Some _ => account db
  | None => AccountRow (account_id_seq db) (User user_id) :: account db
  end.

Definition ensured_account_id_seq (user_id : Z) (db : Database) : Z :=
  match UserAccount.find_points_account user_id db with
  | Some _ => account_id_seq db
  | None => account_id_seq db + 1
  end.

(** The three rows one income transaction of [amt] for [user_id] adds. *)
Definition income_transaction_row (db : Database) : transaction_row :=
  TransactionRow (transaction_id_seq db) income.

Definition income_mutation_row (user_id : Z) (amt : Points.t) (db : Database)
  : mutation_row :=
  MutationRow (mutation_id_seq db) (transaction_id_seq db)
    (points_account_id user_id db) (Points.amount amt).

Definition income_snapshot_row (user_id : Z) (amt : Points.t) (db : Database)
  : account_balance_row :=
  AccountBalanceRow (points_account_id user_id db) (mutation_id_seq db)
    (current_balance db (points_account_id user_id db) + Points.amount amt).

(** The database [create_transaction_income user_id amt] leaves. *)
Definition income_result (user_id : Z) (amt : Points.t) (db : Database) : Database :=
  {| account := ensured_accounts user_id db;
     transaction := income_transaction_row db :: transaction db;
     mutation := income_mutation_row user_id amt db :: mutation db;
     account_balance := income_snapshot_row user_id amt db :: account_balance db;
     account_id_seq := ensured_account_id_seq user_id db;
     transaction_id_seq := transaction_id_seq db + 1;
     mutation_id_seq := mutation_id_seq db + 1 |}.

(** Section 4.4, [history]: the mutations of an account by ascending
    mutation id.  Rows are put in order by insertion on their key; among
    equal keys the row met later in the table comes first. *)
Section Ordering.

Context {A : Type} (key : A -> Z).

Fixpoint insert_by (x : A) (l : list A) : list A :=
  match l with
  | [] => [x]
  | y :: l' => if key x <=? key y then x :: l else y :: insert_by x l'
  end.

Definition sort_by (l : list A) : list A :=
  fold_right insert_by [] l.

Fixpoint ascending (l : list A) : bool :=
  match l with
  | [] => true
  | x :: l' =>
      match l' with
      | [] => true
      | y :: _ => (key x <=? key y) && ascending l'
      end
  end.

Fixpoint last_row (l : list A) : option A :=
  match l with
  | [] => None
  | x :: l' =>
      match l' with
      | [] => Some x
      | _ :: _ => last_row l'
      end
  end.

End Ordering.

Definition history (db : Database) (acct : Z) : list mutation_row :=
  sort_by mutation_pk (filter (fun m => debit_account_id m =? acct) (mutation db)).

Definition snapshots (db : Database) (acct : Z) : list account_balance_row :=
  sort_by mutation_id (filter (fun b => account_id b =? acct) (account_balance db)).

(** The fold of a history: replaying the amounts from a zero balance. *)
Definition replay (h : list mutation_row) : Points.Decimal :=
  fold_left (fun balance m => balance + amount m) h 0.

(** The amount of the mutation with id [mid] that affects [acct]. *)
Definition mutation_amount (db : Database) (acct mid : Z) : option Points.Decimal :=
  option_map amount
    (find (fun m => (mutation_pk m =? mid) && (debit_account_id m =? acct))
       (mutation db)).

(** The invariant of section 3 on a sequence of snapshots of [acct], given
    the balance before its first element: every snapshot is the previous
    one plus the amount of its own mutation. *)
Fixpoint chained (db : Database) (acct : Z) (previous : Points.Decimal)
  (l : list account_balance_row) : bool :=
  match l with
  | [] => true
  | b :: l' =>
      match mutation_amount db acct (mutation_id b) with
      | Some amt => (post_balance b =? previous + amt) && chained db acct (post_balance b) l'
      | None => false
      end
  end.

Definition snapshot_invariant (db : Database) : Prop :=
  forall acct, chained db acct 0 (snapshots db acct) = true.

(** The constraints the storage layer keeps: a sequence is ahead of every
    key it handed out, and a referencing column holds a key of the table
    it references. *)
Definition keys_below (bound : Z) (keys : list Z) : bool :=
  forallb (fun k => k <? bound) keys.

Definition references (keys targets : list Z) : bool :=
  forallb (fun k => existsb (Z.eqb k) targets) keys.

Definition well_formed (db : Database) : bool :=
  keys_below (account_id_seq db) (map account_pk (account db))
  && keys_below (transaction_id_seq db) (map transaction_pk (transaction db))
  && keys_below (mutation_id_seq db) (map mutation_pk (mutation db))
  && references (map transaction_id (mutation db)) (map transaction_pk (transaction db))
  && references (map debit_account_id (mutation db)) (map account_pk (account db))
  && references (map mutation_id (account_balance db)) (map mutation_pk (mutation db))
  && references (map account_id (account_balance db)) (map account_pk (account db)).

(** The same constraints, as propositions. *)
Definition constraints (db : Database) : Prop :=
  Forall (fun k => k < account_id_seq db) (map account_pk (account db))
  /\ Forall (fun k => k < transaction_id_seq db) (map transaction_pk (transaction db))
  /\ Forall (fun k => k < mutation_id_seq db) (map mutation_pk (mutation db))
  /\ incl (map transaction_id (mutation db)) (map transaction_pk (transaction db))
  /\ incl (map debit_account_id (mutation db)) (map account_pk (account db))
  /\ incl (map mutation_id (account_balance db)) (map mutation_pk (mutation db))
  /\ incl (map account_id (account_balance db)) (map account_pk (account db)).

(** Every account of a database built by income transactions holds the
    replay of its history. *)
Definition replay_consistent (db : Database) : Prop :=
  forall acct, current_balance db acct = replay (history db acct).

(** The databases that sequences of committed income transactions build,
    starting from the empty one. *)
Inductive committed : Database -> Prop :=
  | committed_empty : committed empty
  | committed_income db user_id amt tid db' :
      committed db ->
      run (create_transaction_income user_id amt) db = inr (tid, db') ->
      committed db'.

(** The first two scenarios of section 8: user 7 receives 100 points,
    then 50 more. *)
Definition scenario_1 : Database :=
  {| account := [AccountRow 1 (User 7)];
     transaction := [TransactionRow 1 income];
     mutation := [MutationRow 1 1 1 100];
     account_balance := [AccountBalanceRow 1 1 100];
     account_id_seq := 2; transaction_id_seq := 2; mutation_id_seq := 2 |}.

Definition scenario_2 : Database :=
  {| account := [AccountRow 1 (User 7)];
     transaction := [TransactionRow 2 income; TransactionRow 1 income];
     mutation := [MutationRow 2 2 1 50; MutationRow 1 1 1 100];
     account_balance := [AccountBalanceRow 1 2 150; AccountBalanceRow 1 1 100];
     account_id_seq := 2; transaction_id_seq := 3; mutation_id_seq := 3 |}.

(** A database in which a transfer has written two mutations under one
    transaction, so that the two sequences are apart. *)
Definition after_transfer : Database :=
  {| account := [AccountRow 2 (User 8); AccountRow 1 (User 7)];
     transaction := [TransactionRow 2 transfer; TransactionRow 1 income];
     mutation := [MutationRow 3 2 2 40; MutationRow 2 2 1 (-40); MutationRow 1 1 1 100];
     account_balance := [AccountBalanceRow 2 3 40; AccountBalanceRow 1 2 60;
                         AccountBalanceRow 1 1 100];
     account_id_seq := 3; transaction_id_seq := 3; mutation_id_seq := 4 |}.

(** A database that keeps the constraints of the storage layer but holds
    a mutation of 5 points on account 1 for which no snapshot was
    written. *)
Definition unreplayed : Database :=
  {| account := [AccountRow 1 (User 7)];
     transaction := [TransactionRow 1 income];
     mutation := [MutationRow 1 1 1 5];
     account_balance := [];
     account_id_seq := 2; transaction_id_seq := 2; mutation_id_seq := 2 |}.

(** Section 4.3, the validation of [income], at one input: a call with a
    non-positive amount is refused and hands back no database. *)
Definition rejects_non_positive (db : Database) (user_id : Z) (amt : Points.t) : Prop :=
  Points.amount amt <= 0 ->
  exists e, run (create_transaction_income user_id amt) db = inl e.



(** The database [ensure_points_account user_id] leaves. *)
Definition ensured (user_id : Z) (db : Database) : Database :=
  {| account := ensured_accounts user_id db;
     transaction := transaction db;
     mutation := mutation db;
     account_balance := account_balance db;
     account_id_seq := ensured_account_id_seq user_id db;
     transaction_id_seq := transaction_id_seq db;
     mutation_id_seq := mutation_id_seq db |}.

(** The rows of transaction [tid]. *)
Definition mutations_of_transaction (db : Database) (tid : Z) : list mutation_row :=
  filter (fun m => transaction_id m =? tid) (mutation db).

(** ** Python floats *)

Module Float.

(** A Python [float] is an IEEE 754 binary64 number: the specification
    of the standard library with 53 bits of precision. *)
Definition prec : Z := 53.
Definition emax : Z := 1024.

Definition float : Type := spec_float.

Definition valid (x : float) : bool := valid_binary prec emax x.

(** [x * y], rounded to nearest even. *)
Definition mul (x y : float) : float := SFmul prec emax x y.

Definition is_finite (x : float) : bool :=
  match x with
  | S754_zero _ | S754_finite _ _ _ => true
  | S754_infinity _ | S754_nan => false
  end.

(** The literal [255.0]. *)
Definition f255 : float := S754_finite false 8972014882652160 (-45).

(** [sys.float_info.max], the greatest finite float. *)
Definition float_max : float := S754_finite false 9007199254740991 971.

(** The finite floats of magnitude below [2 ^ 1015]: zeros, and valid
    finite numbers [m * 2 ^ e] (where [m < 2 ^ 53]) with [e <= 962]. *)
Definition moderate (x : float) : bool :=
  match x with
  | S754_zero _ => true
  | S754_finite _ _ e => valid x && (e <=? 962)
  | S754_infinity _ | S754_nan => false
  end.

(** [int(x)]: truncation towards zero; [ValueError] on a NaN and
    [OverflowError] on an infinity. *)
Definition int (x : float) : Exception + Z :=
  match x with
  | S754_zero _ => inr 0
  | S754_nan => inl ValueError
  | S754_infinity _ => inl OverflowError
  | S754_finite s m e =>
      let magnitude :=
        if 0 <=? e then Zpos m * 2 ^ e else Zpos m / 2 ^ (- e) in
      inr (if s then - magnitude else magnitude)
  end.

(** [float(n)] for an int: the nearest float, ties to even; an infinity
    when [n] is beyond the finite floats. *)
Definition nearest (n : Z) : float := binary_normalize prec emax n 0 false.

(** The conversion Python applies to an int operand of a float operation:
    [OverflowError] when the int is too large. *)
Definition of_int (n : Z) : Exception + float :=
  if is_finite (nearest n) then inr (nearest n) else inl OverflowError.

Definition is_zero (x : float) : bool :=
  match x with
  | S754_zero _ => true
  | _ => false
  end.

(** The IEEE 754 quotient, rounded to nearest even. *)
Definition div (x y : float) : float := SFdiv prec emax x y.

(** [x / y]: Python raises [ZeroDivisionError], here [None], when [y] is a
    zero of either sign. *)
Definition truediv (x y : float) : option float :=
  if is_zero y then None else Some (div x y).

(** [x <= y] and [x < y] *)
Definition leb (x y : float) : bool := SFleb x y.
Definition ltb (x y : float) : bool := SFltb x y.

(** The builtins [max(x, y)] and [min(x, y)]: the second argument is
    taken only when it compares strictly greater, or strictly less, than
    the first. *)
Definition max (x y : float) : float := if ltb x y then y else x.
Definition min (x y : float) : float := if ltb y x then y else x.

Definition zero : float := S754_zero false.
Definition one : float := S754_finite false 4503599627370496 (-52).

(** The sign bit is set: negative numbers, [-0.0] and [-inf]. *)
Definition signbit (x : float) : bool :=
  match x with
  | S754_zero s | S754_infinity s | S754_finite s _ _ => s
  | S754_nan => false
  end.

End Float.

(** ** hanson.models.color *)

Module Color.

Local Open Scope string_scope.
Local Open Scope Z_scope.

(** [class Color(NamedTuple)].  A Python [str] is modelled by a string of
    one-byte characters, which covers every text [to_html_hex] produces. *)
Record t : Type := Color { r : Z; g : Z; b : Z }.

(** The digits of a natural number in lower-case hexadecimal. *)
Definition hex_digits (n : Z) : string :=
  match n with
  | Z0 => "0"
  | Zpos p => HexString.Raw.of_pos p EmptyString
  | Zneg p => HexString.Raw.of_pos p EmptyString
  end.

Fixpoint zeros (n : nat) : string :=
  match n with
  | O => EmptyString
  | S n' => String "0" (zeros n')
  end.

(** [format(n, "02x")]: a minus sign for a negative number, then the
    hexadecimal digits padded with zeros to a total width of two. *)
Definition format_02x (n : Z) : string :=
  let sign := if n <? 0 then "-" else EmptyString in
  let digits := hex_digits n in
  sign ++ zeros (2 - String.length sign - String.length digits) ++ digits.

(** [to_html_hex]: [f"#{self.r:02x}{self.g:02x}{self.b:02x}"] *)
Definition to_html_hex (self : t) : string :=
  "#" ++ format_02x (r self) ++ format_02x (g self) ++ format_02x (b self).

(** ASCII white space, which [bytes.fromhex] skips between bytes. *)
Definition is_space (c : ascii) : bool :=
  let n := nat_of_ascii c in
  ((9 <=? n) && (n <=? 13) || (n =? 32))%nat.

Definition digit_value (c : ascii) : option Z :=
  option_map Z.of_N (HexString.ascii_to_digit c).

(** [bytes.fromhex]: pairs of hexadecimal digits, white space allowed
    between the pairs, [ValueError] on anything else. *)
Fixpoint fromhex (s : string) : Exception + list Z :=
  match s with
  | EmptyString => inr []
  | String c s' =>
      if is_space c then fromhex s'
      else
        match digit_value c, s' with
        | Some top, String d s'' =>
            match digit_value d with
            | Some bot =>
                match fromhex s'' with
                | inr bytes => inr (16 * top + bot :: bytes)
                | inl e => inl e
                end
            | None => inl ValueError
            end
        | _, _ => inl ValueError
        end
  end.

(** [hex[1:]] *)
Definition tail (s : string) : string :=
  match s with
  | EmptyString => EmptyString
  | String _ s' => s'
  end.

(** [rgb[i]] *)
Definition index (rgb : list Z) (i : nat) : Exception + Z :=
  match nth_error rgb i with
  | Some v => inr v
  | None => inl IndexError
  end.

Definition assert (b : bool) : Exception + unit :=
  if b then inr tt else inl AssertionError.

(** [from_html_hex] *)
Definition from_html_hex (hex : string) : Exception + t :=
  assert (String.prefix "#" hex) ;;
  assert (String.length hex =? 7)%nat ;;
  rgb <- fromhex (tail hex) ;;
  r <- index rgb 0 ;;
  g <- index rgb 1 ;;
  b <- index rgb 2 ;;
  ret (Color r g b).

(** [from_rgb_floats]; [min] and [max] are Python's, on integers. *)
Definition from_rgb_floats (r g b : Float.float) : Exception + t :=
  r' <- Float.int (Float.mul r Float.f255) ;;
  g' <- Float.int (Float.mul g Float.f255) ;;
  b' <- Float.int (Float.mul b Float.f255) ;;
  ret (Color (Z.min 255 (Z.max 0 r')) (Z.min 255 (Z.max 0 g')) (Z.min 255 (Z.max 0 b'))).

(** A component is valid when it ranges from 0 to 255. *)
Definition in_range (c : t) : Prop :=
  0 <= r c <= 255 /\ 0 <= g c <= 255 /\ 0 <= b c <= 255.

(** The call returns a colour, and a valid one. *)
Definition returns_valid_color (r g b : Float.float) : Prop :=
  exists c, from_rgb_floats r g b = inr c /\ in_range c.

(** [to_rgb_floats]: each component, converted to a float, divided by
    [255.0]; the divisor is not zero, so only the conversion can raise. *)
Definition to_rgb_floats (self : t) : Exception + Float.float * Float.float * Float.float :=
  r' <- Float.of_int (r self) ;;
  g' <- Float.of_int (g self) ;;
  b' <- Float.of_int (b self) ;;
  ret (Float.div r' Float.f255, Float.div g' Float.f255, Float.div b' Float.f255).

Section Colorsys.

(** [colorsys.rgb_to_hls] and [colorsys.hls_to_rgb] of the Python standard
    library, which are not code of this repository. *)
Variable rgb_to_hls :
  Float.float -> Float.float -> Float.float ->
  Exception + Float.float * Float.float * Float.float.
Variable hls_to_rgb :
  Float.float -> Float.float -> Float.float ->
  Exception + Float.float * Float.float * Float.float.

(** [clamp_saturation] *)
Definition clamp_saturation (self : t) (min_saturation max_saturation : Float.float)
  : Exception + t :=
  rgb <- to_rgb_floats self ;;
  let '(r, g, b) := rgb in
  hls <- rgb_to_hls r g b ;;
  let '(h, l, s) := hls in
  let s := Float.min max_saturation (Float.max min_saturation s) in
  rgb' <- hls_to_rgb h l s ;;
  let '(r, g, b) := rgb' in
  from_rgb_floats r g b.

(** [clamp_lightness] *)
Definition clamp_lightness (self : t) (min_lightness max_lightness : Float.float)
  : Exception + t :=
  rgb <- to_rgb_floats self ;;
  let '(r, g, b) := rgb in
  hls <- rgb_to_hls r g b ;;
  let '(h, l, s) := hls in
  let l := Float.min max_lightness (Float.max min_lightness l) in
  rgb' <- hls_to_rgb h l s ;;
  let '(r, g, b) := rgb' in
  from_rgb_floats r g b.

End Colorsys.

(** [str.lower] on one-byte characters: the letters A to Z become a to z. *)
Definition lower_char (c : ascii) : ascii :=
  let n := nat_of_ascii c in
  if ((65 <=? n) && (n <=? 90))%nat then ascii_of_nat (n + 32) else c.

Fixpoint lower (s : string) : string :=
  match s with
  | EmptyString => EmptyString
  | String c s' => String (lower_char c) (lower s')
  end.

(** The text of a sequence of bytes, two digits each. *)
Fixpoint hex_text (bytes : list Z) : string :=
  match bytes with
  | [] => EmptyString
  | v :: bytes' => format_02x v ++ hex_text bytes'
  end.

End Color.

(** Formatting the byte [n] gives two characters that parse back to [n]. *)
Definition byte_round_trips (n : Z) : bool :=
  match Color.format_02x n with
  | String c1 (String c2 EmptyString) =>
      negb (Color.is_space c1)
      && match Color.digit_value c1, Color.digit_value c2 with
         | Some top, Some bot => 16 * top + bot =? n
         | _, _ => false
         end
  | _ => false
  end.


(** ** Further views of the ledger *)

(** The balance of a user: the current balance of the points account of
    the user, and zero for a user without one. *)
Definition user_balance (db : Database) (user_id : Z) : Points.Decimal :=
  match UserAccount.find_points_account user_id db with
  | Some r => current_balance db (account_pk r)
  | None => 0
  end.

(** The database a list of income transactions, the latest first, builds
    from the empty one. *)
Inductive committed_log : list (Z * Points.t) -> Database -> Prop :=
  | committed_log_empty : committed_log [] empty
  | committed_log_income log db user_id amt tid db' :
      committed_log log db ->
      run (create_transaction_income user_id amt) db = inr (tid, db') ->
      committed_log ((user_id, amt) :: log) db'.

(** The points a log credits to a user. *)
Fixpoint credited (user_id : Z) (log : list (Z * Points.t)) : Points.Decimal :=
  match log with
  | [] => 0
  | (u, amt) :: log' =>
      if u =? user_id then Points.amount amt + credited user_id log'
      else credited user_id log'
  end.

(** The balances a history runs through, each with the id of its
    mutation. *)
Fixpoint running_totals (previous : Points.Decimal) (h : list mutation_row)
  : list (Z * Points.Decimal) :=
  match h with
  | [] => []
  | m :: h' =>
      (mutation_pk m, previous + amount m) :: running_totals (previous + amount m) h'
  end.

Definition Zsum (l : list Z) : Z := fold_right Z.add 0 l.

(** The points all accounts hold, and the points all mutations moved. *)
Definition total_supply (db : Database) : Points.Decimal :=
  Zsum (map (fun r => current_balance db (account_pk r)) (account db)).

Definition total_created (db : Database) : Points.Decimal :=
  Zsum (map amount (mutation db)).

(** Two income transactions for one user, one after the other, in one
    unit of work. *)
Definition income_twice (user_id : Z) (first second : Points.t) : Tx (Z * Z) :=
  t1 <- create_transaction_income user_id first ;;
  t2 <- create_transaction_income user_id second ;;
  ret (t1, t2).

(** ** hanson.routes.market *)

Module Market.

Section Probabilities.

(** Python's builtin [sum] on a list of floats.  Which additions it
    performs depends on the version of the interpreter, so it is left
    open; on the empty list it answers the int 0, which the code below
    does not use. *)
Variable sum : list Float.float -> Float.float.

(** [range(a, b)] *)
Definition range (a b : Z) : list Z :=
  map (fun i => a + Z.of_nat i) (seq 0 (Z.to_nat (b - a))).

(** [[1 / n for n in range(1, 100)]]: the ints are small, their
    conversion is exact and no divisor is zero. *)
Definition reciprocals : list Float.float :=
  map (fun n => Float.div (Float.nearest 1) (Float.nearest n)) (range 1 100).

(** A list comprehension whose element expression can raise: the first
    failure ends it. *)
Fixpoint comprehension {A B : Type} (f : A -> option B) (l : list A) : option (list B) :=
  match l with
  | [] => Some []
  | x :: l' =>
      match f x with
      | Some y =>
          match comprehension f l' with
          | Some ys => Some (y :: ys)
          | None => None
          end
      | None => None
      end
  end.

(** The placeholder probabilities of [route_get_market] for a market with
    [outcomes] outcomes:
    [ps = [1 / n for n in range(1, 100)][: len(outcomes.outcomes)]],
    [total = sum(ps)], [ps = [p / total for p in ps]]. *)
Definition probabilities (outcomes : nat) : option (list Float.float) :=
  let ps := firstn outcomes reciprocals in
  let total := sum ps in
  comprehension (fun p => Float.truediv p total) ps.

End Probabilities.

End Market.

(** ** Auxiliary predicates *)

(** The ordered snapshots of every account are the running totals of its
    history. *)
Definition totals_recorded (db : Database) : Prop :=
  forall acct,
    map (fun b => (mutation_id b, post_balance b)) (snapshots db acct)
    = running_totals 0 (history db acct).

(** No two account rows share a key. *)
Definition account_keys_unique (db : Database) : Prop :=
  NoDup (map account_pk (account db)).

(** Every one-byte character. *)
Definition all_chars : list ascii := map ascii_of_nat (seq 0 256).

(** A pair of digits is the text of the byte it parses to, up to case. *)
Definition pair_formats (c d : ascii) : bool :=
  match Color.digit_value c, Color.digit_value d with
  | Some top, Some bot =>
      (0 <=? 16 * top + bot) && (16 * top + bot <=? 255)
      && String.eqb (Color.format_02x (16 * top + bot))
           (String (Color.lower_char c) (String (Color.lower_char d) EmptyString))
  | _, _ => true
  end.

(** The float of the component [n] lies in the unit interval and comes
    back as [n]. *)
Definition component_round_trips (n : Z) : bool :=
  match Float.of_int n with
  | inr x =>
      let q := Float.div x Float.f255 in
      Float.leb Float.zero q && Float.leb q Float.one
      && match Float.int (Float.mul q Float.f255) with
         | inr k => Z.min 255 (Z.max 0 k) =? n
         | inl _ => false
         end
  | inl _ => false
  end.

(** The number [m * 2 ^ e] is at least 255. *)
Definition at_least_255 (m e : Z) : Prop :=
  (e <= 0 -> 255 * 2 ^ (- e) <= m) /\ (0 < e -> 255 <= m * 2 ^ e).

(** * Properties of the ledger *)

(** ** One call, in closed form *)

(** *** The steps of the call *)

Lemma run_bind {A B : Type} (c : Tx A) (f : A -> Tx B) db :
  run (bind c f) db
  = match run c db with
    | inl e => inl e
    | inr (x, db') => run (f x) db'
    end.
Proof.
  unfold run. simpl. destruct (runStateT c db) as [e|[x db']]; reflexivity.
Qed.

Lemma has_key_In k keys : has_key k keys = true <-> In k keys.
Proof.
  unfold has_key. rewrite existsb_exists. split.
  - intros (x & Hx & Heq). apply Z.eqb_eq in Heq. now subst.
  - intros Hk. exists k. split; [assumption|apply Z.eqb_refl].
Qed.

Lemma has_key_ensured user_id db :
  has_key (points_account_id user_id db) (map account_pk (ensured_accounts user_id db))
  = true.
Proof.
  apply has_key_In. unfold points_account_id, ensured_accounts.
  destruct (UserAccount.find_points_account user_id db) as [r|] eqn:Hr.
  - apply find_some in Hr as [Hin _]. now apply in_map.
  - now left.
Qed.

Lemma run_ensure_points_account user_id db :
  run (UserAccount.ensure_points_account user_id) db
  = inr (UserAccount.UserAccount (points_account_id user_id db)
           (Points.Points (current_balance db (points_account_id user_id db))),
         ensured user_id db).
Proof.
  unfold run, UserAccount.ensure_points_account, ensured, points_account_id,
    ensured_accounts, ensured_account_id_seq, current_balance. simpl.
  destruct (UserAccount.find_points_account user_id db); [destruct db|]; reflexivity.
Qed.

Lemma run_insert_transaction ty db :
  run (insert_transaction ty) db
  = inr (transaction_id_seq db,
         {| account := account db;
            transaction := TransactionRow (transaction_id_seq db) ty :: transaction db;
            mutation := mutation db;
            account_balance := account_balance db;
            account_id_seq := account_id_seq db;
            transaction_id_seq := transaction_id_seq db + 1;
            mutation_id_seq := mutation_id_seq db |}).
Proof. reflexivity. Qed.

Lemma run_insert_mutation tid acct amt db :
  run (insert_mutation tid acct amt) db
  = if has_key tid (map transaction_pk (transaction db))
       && has_key acct (map account_pk (account db))
    then inr (mutation_id_seq db,
              {| account := account db;
                 transaction := transaction db;
                 mutation := MutationRow (mutation_id_seq db) tid acct amt :: mutation db;
                 account_balance := account_balance db;
                 account_id_seq := account_id_seq db;
                 transaction_id_seq := transaction_id_seq db;
                 mutation_id_seq := mutation_id_seq db + 1 |})
    else inl ForeignKeyViolation.
Proof.
  unfold run, insert_mutation. simpl.
  destruct (has_key tid (map transaction_pk (transaction db))
            && has_key acct (map account_pk (account db))); reflexivity.
Qed.

Lemma run_insert_account_balance acct mid amt db :
  run (insert_account_balance acct mid amt) db
  = if has_key acct (map account_pk (account db))
       && has_key mid (map mutation_pk (mutation db))
    then inr (current_balance db acct + amt,
              {| account := account db;
                 transaction := transaction db;
                 mutation := mutation db;
                 account_balance :=
                   AccountBalanceRow acct mid (current_balance db acct + amt)
                   :: account_balance db;
                 account_id_seq := account_id_seq db;
                 transaction_id_seq := transaction_id_seq db;
                 mutation_id_seq := mutation_id_seq db |})
    else inl ForeignKeyViolation.
Proof.
  unfold run, insert_account_balance. simpl.
  destruct (has_key acct (map account_pk (account db))
            && has_key mid (map mutation_pk (mutation db))); reflexivity.
Qed.

Lemma run_assert b db :
  run (assert b) db = if b then inr (tt, db) else inl AssertionError.
Proof. destruct b; reflexivity. Qed.

Lemma has_key_head k keys : has_key k (k :: keys) = true.
Proof. unfold has_key. simpl. now rewrite Z.eqb_refl. Qed.

Lemma income_run user_id amt db :
  run (create_transaction_income user_id amt) db
  = inr (transaction_id_seq db, income_result user_id amt db).
Proof.
  unfold create_transaction_income.
  rewrite run_bind, run_ensure_points_account.
  rewrite run_bind, run_insert_transaction.
  rewrite run_bind, run_insert_mutation.
  cbn [ensured account transaction mutation account_balance account_id_seq
       transaction_id_seq mutation_id_seq UserAccount.id UserAccount.balance map
       transaction_pk].
  rewrite has_key_head, has_key_ensured. cbn [andb].
  rewrite run_bind, run_insert_account_balance.
  cbn [account mutation map mutation_pk].
  rewrite has_key_head, has_key_ensured. cbn [andb].
  rewrite run_bind, run_assert.
  unfold Points.eqb, Points.add. cbn [Points.amount].
  unfold current_balance at 1 2, account_current_balance. cbn [account_balance].
  fold (account_current_balance db (points_account_id user_id db)).
  rewrite (Z.add_comm (Points.amount amt)), Z.eqb_refl.
  reflexivity.
Qed.

Lemma income_run_inv user_id amt db tid db' :
  run (create_transaction_income user_id amt) db = inr (tid, db') ->
  tid = transaction_id_seq db /\ db' = income_result user_id amt db.
Proof.
  rewrite income_run. intros H. injection H as <- <-. split; reflexivity.
Qed.

(** ** Ordering rows by a key *)

Section OrderingFacts.

Context {A : Type} (key : A -> Z).

Lemma insert_by_greatest x l :
  Forall (fun y => key y < key x) l -> insert_by key x l = l ++ [x].
Proof.
  induction 1 as [|y l Hy _ IH]; simpl; [reflexivity|].
  destruct (Z.leb_spec (key x) (key y)); [lia|]. now rewrite IH.
Qed.

Lemma insert_by_In x y l : In y (insert_by key x l) <-> y = x \/ In y l.
Proof.
  induction l as [|z l IH]; simpl.
  - intuition.
  - destruct (key x <=? key z); simpl; [intuition|]. rewrite IH. intuition.
Qed.

Lemma sort_by_In y l : In y (sort_by key l) <-> In y l.
Proof.
  induction l as [|x l IH]; simpl; [reflexivity|].
  rewrite insert_by_In, IH. intuition.
Qed.

Lemma ascending_insert_by x l :
  ascending key l = true -> ascending key (insert_by key x l) = true.
Proof.
  induction l as [|y l IH]; [reflexivity|].
  intros Hl. simpl insert_by.
  destruct (Z.leb_spec (key x) (key y)) as [Hxy|Hxy].
  - change (((key x <=? key y) && ascending key (y :: l)) = true).
    rewrite Hl, andb_true_r. now apply Z.leb_le.
  - destruct l as [|z l].
    + simpl. rewrite andb_true_r. apply Z.leb_le. lia.
    + simpl in Hl. apply andb_prop in Hl as [Hyz Hl].
      specialize (IH Hl). simpl insert_by in IH |- *.
      destruct (Z.leb_spec (key x) (key z)).
      * change (((key y <=? key x) && ascending key (x :: z :: l)) = true).
        rewrite IH, andb_true_r. apply Z.leb_le. lia.
      * change (((key y <=? key z) && ascending key (z :: insert_by key x l)) = true).
        now rewrite Hyz, IH.
Qed.

Lemma ascending_sort_by l : ascending key (sort_by key l) = true.
Proof.
  induction l as [|x l IH]; [reflexivity|]. now apply ascending_insert_by.
Qed.

Lemma ascending_head_le_last x l y :
  ascending key (x :: l) = true -> last_row (x :: l) = Some y -> key x <= key y.
Proof.
  revert x. induction l as [|z l IH]; intros x Hasc Hlast.
  - simpl in Hlast. injection Hlast as <-. lia.
  - simpl in Hasc. apply andb_prop in Hasc as [Hxz Hasc].
    apply Z.leb_le in Hxz.
    change (last_row (z :: l) = Some y) in Hlast.
    specialize (IH z Hasc Hlast). lia.
Qed.

Lemma last_row_cons (x : A) l : last_row (x :: l) <> None.
Proof.
  revert x. induction l as [|z l IH]; intros x; [discriminate|].
  change (last_row (x :: z :: l)) with (last_row (z :: l)). apply IH.
Qed.

(** Inserting into an ordered list moves the last row only when the new
    key is strictly greater than the one of the last row. *)
Lemma last_row_insert_by x l :
  ascending key l = true ->
  last_row (insert_by key x l)
  = match last_row l with
    | Some y => if key y <? key x then Some x else Some y
    | None => Some x
    end.
Proof.
  induction l as [|z l IH]; intros Hasc; [reflexivity|].
  simpl insert_by.
  destruct (Z.leb_spec (key x) (key z)) as [Hxz|Hxz].
  - change (last_row (x :: z :: l)) with (last_row (z :: l)).
    destruct (last_row (z :: l)) as [y|] eqn:Hy.
    + pose proof (ascending_head_le_last z l y Hasc Hy).
      destruct (Z.ltb_spec (key y) (key x)); [lia|reflexivity].
    + now apply last_row_cons in Hy.
  - assert (Hl : ascending key l = true).
    { destruct l; [reflexivity|]. simpl in Hasc. now apply andb_prop in Hasc. }
    specialize (IH Hl).
    destruct l as [|w l].
    + simpl. destruct (Z.ltb_spec (key z) (key x)); [reflexivity|lia].
    + change (last_row (z :: w :: l)) with (last_row (w :: l)).
      rewrite <- IH. simpl insert_by.
      destruct (key x <=? key w); reflexivity.
Qed.

Lemma last_row_app (x : A) l : last_row (l ++ [x]) = Some x.
Proof.
  induction l as [|y l IH]; [reflexivity|].
  simpl app. destruct l; [reflexivity|]. exact IH.
Qed.

End OrderingFacts.

(** ** The latest snapshot of an account *)

Lemma latest_snapshot_In acct rows r :
  latest_snapshot acct rows = Some r -> In r rows /\ account_id r = acct.
Proof.
  induction rows as [|x rows IH]; simpl; [discriminate|].
  destruct (Z.eqb_spec (account_id x) acct) as [Hx|Hx].
  - destruct (latest_snapshot acct rows) as [r'|].
    + destruct (mutation_id r' <? mutation_id x); intros [= <-]; intuition.
    + intros [= <-]. intuition.
  - intros H. apply IH in H. intuition.
Qed.

(** The query "greatest mutation id first" answers with the last snapshot
    of the account in ascending order. *)
Lemma latest_snapshot_ordered acct rows :
  latest_snapshot acct rows
  = last_row (sort_by mutation_id (filter (fun b => account_id b =? acct) rows)).
Proof.
  induction rows as [|x rows IH]; simpl; [reflexivity|].
  destruct (account_id x =? acct); [|exact IH].
  simpl. rewrite last_row_insert_by by apply ascending_sort_by.
  rewrite <- IH. destruct (latest_snapshot acct rows); reflexivity.
Qed.

Lemma current_balance_last db acct :
  current_balance db acct
  = COALESCE (option_map post_balance (last_row (snapshots db acct))) 0.
Proof.
  unfold current_balance, account_current_balance, snapshots.
  now rewrite latest_snapshot_ordered.
Qed.

Lemma latest_snapshot_newest acct rows x :
  account_id x = acct ->
  Forall (fun b => mutation_id b < mutation_id x) rows ->
  latest_snapshot acct (x :: rows) = Some x.
Proof.
  intros Hx Hrows. simpl. rewrite (proj2 (Z.eqb_eq _ _) Hx).
  destruct (latest_snapshot acct rows) as [r'|] eqn:Hr'; [|reflexivity].
  apply latest_snapshot_In in Hr' as [Hin _].
  rewrite Forall_forall in Hrows. specialize (Hrows _ Hin).
  destruct (Z.ltb_spec (mutation_id r') (mutation_id x)); [reflexivity|lia].
Qed.

Lemma latest_snapshot_other acct rows x :
  account_id x <> acct ->
  latest_snapshot acct (x :: rows) = latest_snapshot acct rows.
Proof.
  intros Hx. simpl. now rewrite (proj2 (Z.eqb_neq _ _) Hx).
Qed.

(** ** The constraints of the storage layer *)

Lemma keys_below_spec bound keys :
  keys_below bound keys = true <-> Forall (fun k => k < bound) keys.
Proof.
  unfold keys_below. rewrite forallb_forall, Forall_forall.
  split; intros H k Hk; specialize (H k Hk); now apply Z.ltb_lt.
Qed.

Lemma references_spec keys targets :
  references keys targets = true <-> incl keys targets.
Proof.
  unfold references, incl. rewrite forallb_forall.
  split; intros H k Hk; specialize (H k Hk).
  - apply existsb_exists in H as (t & Ht & Heq). apply Z.eqb_eq in Heq. now subst.
  - apply existsb_exists. exists k. split; [assumption|apply Z.eqb_refl].
Qed.

Lemma well_formed_spec db : well_formed db = true <-> constraints db.
Proof.
  unfold well_formed, constraints.
  rewrite !andb_true_iff, !keys_below_spec, !references_spec. tauto.
Qed.

Lemma snapshot_keys_below db b :
  well_formed db = true -> In b (account_balance db) ->
  mutation_id b < mutation_id_seq db /\ account_id b < account_id_seq db.
Proof.
  intros Hwf Hb. apply well_formed_spec in Hwf.
  destruct Hwf as (Ha & _ & Hm & _ & _ & Hbm & Hba).
  rewrite Forall_forall in Ha, Hm. split.
  - apply Hm, Hbm, in_map, Hb.
  - apply Ha, Hba, in_map, Hb.
Qed.

Lemma snapshot_ids_below db :
  well_formed db = true ->
  Forall (fun b => mutation_id b < mutation_id_seq db) (account_balance db).
Proof.
  intros Hwf. apply Forall_forall. intros b Hb.
  now apply (snapshot_keys_below db b Hwf).
Qed.

Lemma find_points_account_some user_id db r :
  UserAccount.find_points_account user_id db = Some r ->
  In r (account db) /\ account_owner r = User user_id.
Proof.
  unfold UserAccount.find_points_account. intros H.
  apply find_some in H as [Hin Hown]. split; [assumption|].
  destruct (account_owner r); simpl in Hown; try discriminate.
  apply Z.eqb_eq in Hown. now subst.
Qed.

Lemma ensured_accounts_incl user_id db :
  incl (account db) (ensured_accounts user_id db).
Proof.
  unfold ensured_accounts.
  destruct (UserAccount.find_points_account user_id db);
    [apply incl_refl|apply incl_tl, incl_refl].
Qed.

Lemma points_account_ensured user_id db :
  In (points_account_id user_id db) (map account_pk (ensured_accounts user_id db)).
Proof.
  unfold points_account_id, ensured_accounts.
  destruct (UserAccount.find_points_account user_id db) as [r|] eqn:Hr.
  - apply find_points_account_some in Hr as [Hin _]. now apply in_map.
  - now left.
Qed.

Lemma ensured_accounts_below user_id db :
  Forall (fun k => k < account_id_seq db) (map account_pk (account db)) ->
  Forall (fun k => k < ensured_account_id_seq user_id db)
    (map account_pk (ensured_accounts user_id db)).
Proof.
  unfold ensured_accounts, ensured_account_id_seq. intros H.
  destruct (UserAccount.find_points_account user_id db); [assumption|].
  simpl. constructor; [lia|].
  eapply Forall_impl; [|exact H]. simpl. intros; lia.
Qed.

(** A committed income transaction keeps the constraints. *)
Lemma well_formed_income user_id amt db :
  well_formed db = true -> well_formed (income_result user_id amt db) = true.
Proof.
  rewrite !well_formed_spec. unfold constraints.
  intros (Ha & Ht & Hm & Hmt & Hma & Hbm & Hba). simpl.
  pose proof (ensured_accounts_incl user_id db) as Hincl.
  pose proof (points_account_ensured user_id db) as Hacct.
  assert (Hmap : incl (map account_pk (account db))
                   (map account_pk (ensured_accounts user_id db))).
  { intros k Hk. apply in_map_iff in Hk as (r & <- & Hr). apply in_map, Hincl, Hr. }
  repeat split.
  - now apply ensured_accounts_below.
  - constructor; [lia|]. eapply Forall_impl; [|exact Ht]. simpl. intros; lia.
  - constructor; [lia|]. eapply Forall_impl; [|exact Hm]. simpl. intros; lia.
  - apply incl_cons; [now left|]. now apply incl_tl.
  - apply incl_cons; [exact Hacct|]. eapply incl_tran; eassumption.
  - apply incl_cons; [now left|]. now apply incl_tl.
  - apply incl_cons; [exact Hacct|]. eapply incl_tran; eassumption.
Qed.

Lemma well_formed_empty : well_formed empty = true.
Proof. reflexivity. Qed.

Lemma committed_well_formed db : committed db -> well_formed db = true.
Proof.
  induction 1 as [|db user_id amt tid db' _ IH Hrun]; [reflexivity|].
  apply income_run_inv in Hrun as [_ ->]. now apply well_formed_income.
Qed.

(** ** What one income transaction changes *)

Lemma latest_snapshot_none acct rows :
  Forall (fun b => account_id b <> acct) rows -> latest_snapshot acct rows = None.
Proof.
  induction 1 as [|x rows Hx _ IH]; simpl; [reflexivity|].
  now rewrite (proj2 (Z.eqb_neq _ _) Hx).
Qed.

Lemma current_balance_unknown_account db acct :
  well_formed db = true -> account_id_seq db <= acct -> current_balance db acct = 0.
Proof.
  intros Hwf Hacct. unfold current_balance, account_current_balance.
  rewrite latest_snapshot_none; [reflexivity|].
  apply Forall_forall. intros b Hb.
  destruct (snapshot_keys_below db b Hwf Hb). lia.
Qed.

Lemma income_balance user_id amt db :
  well_formed db = true ->
  current_balance (income_result user_id amt db) (points_account_id user_id db)
  = current_balance db (points_account_id user_id db) + Points.amount amt.
Proof.
  intros Hwf. unfold current_balance at 1, account_current_balance, income_result.
  cbn [account_balance].
  rewrite latest_snapshot_newest; [reflexivity|reflexivity|].
  now apply snapshot_ids_below.
Qed.

Lemma income_balance_other user_id amt db acct :
  acct <> points_account_id user_id db ->
  current_balance (income_result user_id amt db) acct = current_balance db acct.
Proof.
  intros Hacct. unfold current_balance, account_current_balance, income_result.
  cbn [account_balance].
  rewrite latest_snapshot_other; [reflexivity|]. simpl. congruence.
Qed.

Lemma income_snapshots_other user_id amt db acct :
  acct <> points_account_id user_id db ->
  filter (fun b => account_id b =? acct) (account_balance (income_result user_id amt db))
  = filter (fun b => account_id b =? acct) (account_balance db).
Proof.
  intros Hacct. simpl.
  destruct (Z.eqb_spec (points_account_id user_id db) acct); [congruence|reflexivity].
Qed.

Lemma income_mutations_other user_id amt db acct :
  acct <> points_account_id user_id db ->
  filter (fun m => debit_account_id m =? acct) (mutation (income_result user_id amt db))
  = filter (fun m => debit_account_id m =? acct) (mutation db).
Proof.
  intros Hacct. simpl.
  destruct (Z.eqb_spec (points_account_id user_id db) acct); [congruence|reflexivity].
Qed.

Lemma income_snapshots_own user_id amt db :
  well_formed db = true ->
  snapshots (income_result user_id amt db) (points_account_id user_id db)
  = snapshots db (points_account_id user_id db) ++ [income_snapshot_row user_id amt db].
Proof.
  intros Hwf. unfold snapshots. simpl. rewrite Z.eqb_refl. simpl.
  apply insert_by_greatest, Forall_forall. intros b Hb.
  apply sort_by_In, filter_In in Hb as [Hb _]. simpl.
  now destruct (snapshot_keys_below db b Hwf Hb).
Qed.

Lemma mutation_keys_below db m :
  well_formed db = true -> In m (mutation db) ->
  mutation_pk m < mutation_id_seq db /\ transaction_id m < transaction_id_seq db.
Proof.
  intros Hwf Hm. apply well_formed_spec in Hwf.
  destruct Hwf as (_ & Ht & Hmu & Hmt & _).
  rewrite Forall_forall in Ht, Hmu. split.
  - apply Hmu, in_map, Hm.
  - apply Ht, Hmt, in_map, Hm.
Qed.

Lemma income_history_own user_id amt db :
  well_formed db = true ->
  history (income_result user_id amt db) (points_account_id user_id db)
  = history db (points_account_id user_id db) ++ [income_mutation_row user_id amt db].
Proof.
  intros Hwf. unfold history. simpl. rewrite Z.eqb_refl. simpl.
  apply insert_by_greatest, Forall_forall. intros m Hm.
  apply sort_by_In, filter_In in Hm as [Hm _]. simpl.
  now destruct (mutation_keys_below db m Hwf Hm).
Qed.

(** ** Replaying a history *)

Lemma replay_from (h : list mutation_row) (start : Z) :
  fold_left (fun balance m => balance + amount m) h start = start + replay h.
Proof.
  unfold replay. revert start.
  induction h as [|m h IH]; intros start; simpl; [lia|].
  rewrite IH, (IH (amount m)). lia.
Qed.

Lemma replay_cons m h : replay (m :: h) = amount m + replay h.
Proof. unfold replay at 1. simpl. now rewrite replay_from. Qed.

Lemma replay_insert_by m h :
  replay (insert_by mutation_pk m h) = amount m + replay h.
Proof.
  induction h as [|x h IH]; [unfold replay; simpl; lia|]. simpl.
  destruct (mutation_pk m <=? mutation_pk x).
  - now rewrite !replay_cons.
  - rewrite !replay_cons, IH. lia.
Qed.

Lemma income_replay_own user_id amt db :
  replay (history (income_result user_id amt db) (points_account_id user_id db))
  = replay (history db (points_account_id user_id db)) + Points.amount amt.
Proof.
  unfold history. simpl. rewrite Z.eqb_refl. simpl.
  rewrite replay_insert_by. simpl. lia.
Qed.

Lemma income_history_other user_id amt db acct :
  acct <> points_account_id user_id db ->
  history (income_result user_id amt db) acct = history db acct.
Proof.
  intros Hacct. unfold history. now rewrite income_mutations_other.
Qed.

Lemma replay_consistent_income user_id amt db :
  well_formed db = true -> replay_consistent db ->
  replay_consistent (income_result user_id amt db).
Proof.
  intros Hwf Hdb acct.
  destruct (Z.eq_dec acct (points_account_id user_id db)) as [->|Hacct].
  - rewrite income_balance, income_replay_own, Hdb by assumption. reflexivity.
  - rewrite income_balance_other, income_history_other by assumption. apply Hdb.
Qed.

Lemma committed_replay_consistent db : committed db -> replay_consistent db.
Proof.
  induction 1 as [|db user_id amt tid db' Hdb IH Hrun].
  - intros acct. reflexivity.
  - apply income_run_inv in Hrun as [_ ->].
    apply replay_consistent_income; [now apply committed_well_formed|assumption].
Qed.

(** ** The chain of snapshots *)

Lemma mutation_amount_old user_id amt db acct mid :
  mid < mutation_id_seq db ->
  mutation_amount (income_result user_id amt db) acct mid = mutation_amount db acct mid.
Proof.
  intros Hmid. unfold mutation_amount. simpl.
  destruct (Z.eqb_spec (mutation_id_seq db) mid); [lia|reflexivity].
Qed.

Lemma mutation_amount_other user_id amt db acct mid :
  acct <> points_account_id user_id db ->
  mutation_amount (income_result user_id amt db) acct mid = mutation_amount db acct mid.
Proof.
  intros Hacct. unfold mutation_amount. simpl.
  destruct (Z.eqb_spec (points_account_id user_id db) acct); [congruence|].
  now rewrite andb_false_r.
Qed.

Lemma mutation_amount_new user_id amt db :
  mutation_amount (income_result user_id amt db) (points_account_id user_id db)
    (mutation_id_seq db)
  = Some (Points.amount amt).
Proof.
  unfold mutation_amount. simpl. now rewrite !Z.eqb_refl.
Qed.

Lemma chained_ext db db' acct previous l :
  Forall (fun b => mutation_amount db' acct (mutation_id b)
                   = mutation_amount db acct (mutation_id b)) l ->
  chained db' acct previous l = chained db acct previous l.
Proof.
  intros H. revert previous.
  induction H as [|b l Hb _ IH]; intros previous; simpl; [reflexivity|].
  rewrite Hb. destruct (mutation_amount db acct (mutation_id b)); [|reflexivity].
  now rewrite IH.
Qed.

Lemma chained_app db acct previous l x :
  chained db acct previous (l ++ [x])
  = chained db acct previous l
    && chained db acct (COALESCE (option_map post_balance (last_row l)) previous) [x].
Proof.
  revert previous. induction l as [|b l IH]; intros previous.
  - reflexivity.
  - change ((b :: l) ++ [x]) with (b :: (l ++ [x])).
    cbn [chained].
    destruct (mutation_amount db acct (mutation_id b)) as [amt|]; [|reflexivity].
    rewrite IH, andb_assoc. f_equal.
    destruct l as [|c l]; [reflexivity|].
    change (last_row (b :: c :: l)) with (last_row (c :: l)).
    destruct (last_row (c :: l)) eqn:Hlast; [reflexivity|].
    now apply last_row_cons in Hlast.
Qed.

Lemma snapshot_invariant_income user_id amt db :
  well_formed db = true -> snapshot_invariant db ->
  snapshot_invariant (income_result user_id amt db).
Proof.
  intros Hwf Hdb acct.
  destruct (Z.eq_dec acct (points_account_id user_id db)) as [->|Hacct].
  - rewrite income_snapshots_own, chained_app by assumption.
    apply andb_true_intro. split.
    + rewrite (chained_ext db); [apply Hdb|].
      apply Forall_forall. intros b Hb.
      apply mutation_amount_old.
      apply sort_by_In, filter_In in Hb as [Hb _].
      now destruct (snapshot_keys_below db b Hwf Hb).
    + rewrite <- current_balance_last. cbn [chained income_snapshot_row mutation_id].
      rewrite mutation_amount_new. cbn [post_balance].
      now rewrite Z.eqb_refl.
  - unfold snapshots. rewrite income_snapshots_other by assumption.
    rewrite (chained_ext db); [apply Hdb|].
    apply Forall_forall. intros b _. now apply mutation_amount_other.
Qed.

Lemma snapshot_invariant_empty : snapshot_invariant empty.
Proof. intros acct. reflexivity. Qed.

Lemma committed_snapshot_invariant db : committed db -> snapshot_invariant db.
Proof.
  induction 1 as [|db user_id amt tid db' Hdb IH Hrun].
  - apply snapshot_invariant_empty.
  - apply income_run_inv in Hrun as [_ ->].
    apply snapshot_invariant_income; [now apply committed_well_formed|assumption].
Qed.

Lemma no_snapshot_zero_balance db acct :
  snapshots db acct = [] -> current_balance db acct = 0.
Proof. intros H. now rewrite current_balance_last, H. Qed.

(** ** The account of the user *)

Lemma owner_eqb_refl o : owner_eqb o o = true.
Proof. destruct o; simpl; now rewrite ?Z.eqb_refl. Qed.

Lemma find_points_account_income user_id amt db :
  exists r,
    UserAccount.find_points_account user_id (income_result user_id amt db) = Some r
    /\ account_pk r = points_account_id user_id db
    /\ account_owner r = User user_id.
Proof.
  unfold UserAccount.find_points_account, income_result, points_account_id,
    ensured_accounts. cbn [account].
  destruct (UserAccount.find_points_account user_id db) as [r|] eqn:Hr.
  - exists r. split; [exact Hr|]. split; [reflexivity|].
    now apply find_points_account_some in Hr.
  - exists (AccountRow (account_id_seq db) (User user_id)).
    split; [|split; reflexivity].
    simpl. now rewrite Z.eqb_refl.
Qed.

Lemma filter_none {A : Type} (f : A -> bool) (l : list A) :
  Forall (fun x => f x = false) l -> filter f l = [].
Proof.
  induction 1 as [|x l Hx _ IH]; simpl; [reflexivity|]. now rewrite Hx.
Qed.

Lemma mutations_of_new_transaction user_id amt db :
  well_formed db = true ->
  mutations_of_transaction (income_result user_id amt db) (transaction_id_seq db)
  = [income_mutation_row user_id amt db].
Proof.
  intros Hwf. unfold mutations_of_transaction. simpl. rewrite Z.eqb_refl. f_equal.
  apply filter_none, Forall_forall. intros m Hm.
  destruct (mutation_keys_below db m Hwf Hm) as [_ Ht].
  apply Z.eqb_neq. lia.
Qed.

(** ** The claims on the ledger *)

Example scenario_1_run :
  run (create_transaction_income 7 (Points.Points 100)) empty = inr (1, scenario_1).
Proof. reflexivity. Qed.

Example scenario_2_run :
  run (create_transaction_income 7 (Points.Points 50)) scenario_1 = inr (2, scenario_2).
Proof. reflexivity. Qed.

Example scenario_2_balance :
  current_balance scenario_2 1 = 150
  /\ map post_balance (snapshots scenario_2 1) = [100; 150].
Proof. split; reflexivity. Qed.

(** C1. Conservation (income): for every positive amount and every user,
    [create_transaction_income] returns, the current balance of the points
    account of the user grows by exactly the amount, and the call adds
    exactly one mutation row and exactly one balance snapshot row, both on
    that account. *)
Theorem income_conservation (db : Database) (user_id : Z) (amt : Points.t) :
  well_formed db = true ->
  0 < Points.amount amt ->
  exists tid db' r m b,
    run (create_transaction_income user_id amt) db = inr (tid, db')
    /\ UserAccount.find_points_account user_id db' = Some r
    /\ current_balance db' (account_pk r)
       = current_balance db (account_pk r) + Points.amount amt
    /\ mutation db' = m :: mutation db
    /\ account_balance db' = b :: account_balance db
    /\ debit_account_id m = account_pk r
    /\ account_id b = account_pk r.
Proof.
  intros Hwf _.
  destruct (find_points_account_income user_id amt db) as (r & Hr & Hpk & _).
  exists (transaction_id_seq db), (income_result user_id amt db), r,
    (income_mutation_row user_id amt db), (income_snapshot_row user_id amt db).
  rewrite Hpk. repeat split.
  - apply income_run.
  - exact Hr.
  - now apply income_balance.
Qed.

Lemma income_conservation_witness :
  exists tid db' r m b,
    run (create_transaction_income 7 (Points.Points 50)) scenario_1 = inr (tid, db')
    /\ UserAccount.find_points_account 7 db' = Some r
    /\ current_balance db' (account_pk r) = current_balance scenario_1 (account_pk r) + 50
    /\ mutation db' = m :: mutation scenario_1
    /\ account_balance db' = b :: account_balance scenario_1
    /\ debit_account_id m = account_pk r
    /\ account_id b = account_pk r.
Proof.
  apply (income_conservation scenario_1 7 (Points.Points 50)).
  - reflexivity.
  - simpl. lia.
Defined.

(** C2. The snapshot invariant: for every account, the snapshots in the
    order of their mutation ids start from a zero balance and each adds
    the amount of its own mutation to the snapshot before it.  A committed
    income transaction keeps the invariant (and the constraints of the
    storage layer); an account without snapshots has a zero current
    balance, and the first snapshot written for such an account is the
    amount itself. *)
Theorem snapshot_invariant_preserved
  (db : Database) (user_id : Z) (amt : Points.t) (tid : Z) (db' : Database) :
  well_formed db = true ->
  snapshot_invariant db ->
  run (create_transaction_income user_id amt) db = inr (tid, db') ->
  well_formed db' = true
  /\ snapshot_invariant db'
  /\ (forall acct, snapshots db acct = [] -> current_balance db acct = 0)
  /\ (snapshots db (points_account_id user_id db) = [] ->
      snapshots db' (points_account_id user_id db)
      = [AccountBalanceRow (points_account_id user_id db) (mutation_id_seq db)
           (Points.amount amt)]).
Proof.
  intros Hwf Hinv Hrun. apply income_run_inv in Hrun as [_ ->].
  split; [now apply well_formed_income|].
  split; [now apply snapshot_invariant_income|].
  split; [intros acct; apply no_snapshot_zero_balance|].
  intros Hnone. rewrite income_snapshots_own, Hnone by assumption.
  unfold income_snapshot_row. now rewrite (no_snapshot_zero_balance _ _ Hnone).
Qed.

Lemma snapshot_invariant_preserved_witness :
  well_formed scenario_2 = true
  /\ snapshot_invariant scenario_2
  /\ (forall acct, snapshots scenario_1 acct = [] -> current_balance scenario_1 acct = 0)
  /\ (snapshots scenario_1 (points_account_id 7 scenario_1) = [] ->
      snapshots scenario_2 (points_account_id 7 scenario_1)
      = [AccountBalanceRow (points_account_id 7 scenario_1)
           (mutation_id_seq scenario_1) 50]).
Proof.
  apply (snapshot_invariant_preserved scenario_1 7 (Points.Points 50) 2 scenario_2).
  - reflexivity.
  - intros acct. unfold snapshots.
    cbn [account_balance scenario_1 filter account_id].
    destruct (Z.eqb_spec 1 acct) as [<-|_]; reflexivity.
  - reflexivity.
Defined.

(** C3. Replay equivalence: after any sequence of committed income
    transactions, also the empty one, the current balance of every account
    is the fold of its history, the sum of the amounts of all its
    mutations from a zero balance. *)
Theorem replay_equivalence (db : Database) (acct : Z) :
  committed db ->
  current_balance db acct = replay (history db acct).
Proof.
  intros Hdb. now apply committed_replay_consistent.
Qed.

Lemma replay_equivalence_witness :
  current_balance scenario_2 1 = replay (history scenario_2 1).
Proof.
  apply (replay_equivalence scenario_2 1).
  apply (committed_income scenario_1 7 (Points.Points 50) 2 scenario_2).
  - apply (committed_income empty 7 (Points.Points 100) 1 scenario_1).
    + apply committed_empty.
    + reflexivity.
  - reflexivity.
Defined.

Example negative_income_is_written :
  run (create_transaction_income 7 (Points.Points (-5))) empty
  = inr (1, {| account := [AccountRow 1 (User 7)];
               transaction := [TransactionRow 1 income];
               mutation := [MutationRow 1 1 1 (-5)];
               account_balance := [AccountBalanceRow 1 1 (-5)];
               account_id_seq := 2; transaction_id_seq := 2; mutation_id_seq := 2 |}).
Proof. reflexivity. Qed.

Example zero_income_is_written :
  run (create_transaction_income 7 (Points.Points 0)) empty
  = inr (1, {| account := [AccountRow 1 (User 7)];
               transaction := [TransactionRow 1 income];
               mutation := [MutationRow 1 1 1 0];
               account_balance := [AccountBalanceRow 1 1 0];
               account_id_seq := 2; transaction_id_seq := 2; mutation_id_seq := 2 |}).
Proof. reflexivity. Qed.

(** C4, as stated, fails: an income of zero points is not refused; the
    call returns a transaction id and the rows are written. *)
Lemma income_accepts_zero_amount :
  ~ rejects_non_positive empty 7 (Points.Points 0).
Proof.
  unfold rejects_non_positive. intros H.
  destruct H as [e He]; [simpl; lia|].
  rewrite income_run in He. discriminate He.
Qed.

(** C4, amended. The income transaction [create_transaction_income] writes
    consists of exactly one mutation, which carries the given amount.  The
    amount is not validated: whatever its sign, the call returns the id of
    a transaction row of type income, written together with one mutation
    row and one balance snapshot row. *)
Theorem income_single_mutation (db : Database) (user_id : Z) (amt : Points.t) :
  well_formed db = true ->
  exists tid db' m b,
    run (create_transaction_income user_id amt) db = inr (tid, db')
    /\ transaction db' = TransactionRow tid income :: transaction db
    /\ mutation db' = m :: mutation db
    /\ account_balance db' = b :: account_balance db
    /\ mutations_of_transaction db' tid = [m]
    /\ amount m = Points.amount amt
    /\ mutation_id b = mutation_pk m.
Proof.
  intros Hwf.
  exists (transaction_id_seq db), (income_result user_id amt db),
    (income_mutation_row user_id amt db), (income_snapshot_row user_id amt db).
  repeat split.
  - apply income_run.
  - now apply mutations_of_new_transaction.
Qed.

Lemma income_single_mutation_witness :
  exists tid db' m b,
    run (create_transaction_income 8 (Points.Points 0)) after_transfer = inr (tid, db')
    /\ transaction db' = TransactionRow tid income :: transaction after_transfer
    /\ mutation db' = m :: mutation after_transfer
    /\ account_balance db' = b :: account_balance after_transfer
    /\ mutations_of_transaction db' tid = [m]
    /\ amount m = 0
    /\ mutation_id b = mutation_pk m.
Proof.
  apply (income_single_mutation after_transfer 8 (Points.Points 0)).
  reflexivity.
Defined.

Example unreplayed_well_formed : well_formed unreplayed = true.
Proof. reflexivity. Qed.



Lemma has_key_fresh k keys :
  Forall (fun x => x < k) keys -> has_key k keys = false.
Proof.
  intros Hkeys. destruct (has_key k keys) eqn:E; [|reflexivity].
  apply has_key_In in E. rewrite Forall_forall in Hkeys.
  specialize (Hkeys _ E). lia.
Qed.

(** C6. The order of the commit.  With the account of the user known, the
    transaction row is inserted first and yields the transaction id.  The
    mutation row refers to that id: the storage layer refuses it before
    the transaction row is there and accepts it after.  The balance
    snapshot refers to the id of the mutation: it is refused before the
    mutation row is there and accepted after, and it holds the current
    balance of the account as the unit of work sees it at that moment,
    plus the amount.  The call is these steps in this order. *)
Theorem income_commit_order (db : Database) (user_id : Z) (amt : Points.t) :
  well_formed db = true ->
  let acct := points_account_id user_id db in
  let tid := transaction_id_seq db in
  let mid := mutation_id_seq db in
  exists account db1 db2 db3 db4,
    run (UserAccount.ensure_points_account user_id) db = inr (account, db1)
    /\ UserAccount.id account = acct
    /\ run (insert_transaction income) db1 = inr (tid, db2)
    /\ transaction db2 = TransactionRow tid income :: transaction db
    /\ run (insert_mutation tid acct (Points.amount amt)) db1 = inl ForeignKeyViolation
    /\ run (insert_mutation tid acct (Points.amount amt)) db2 = inr (mid, db3)
    /\ mutation db3 = MutationRow mid tid acct (Points.amount amt) :: mutation db
    /\ run (insert_account_balance acct mid (Points.amount amt)) db2
       = inl ForeignKeyViolation
    /\ run (insert_account_balance acct mid (Points.amount amt)) db3
       = inr (current_balance db3 acct + Points.amount amt, db4)
    /\ account_balance db4
       = AccountBalanceRow acct mid (current_balance db3 acct + Points.amount amt)
         :: account_balance db
    /\ transaction db4 = transaction db2
    /\ mutation db4 = mutation db3
    /\ run (create_transaction_income user_id amt) db = inr (tid, db4).
Proof.
  intros Hwf acct tid mid. subst acct tid mid.
  apply well_formed_spec in Hwf. destruct Hwf as (_ & Ht & Hm & _).
  pose proof (has_key_fresh _ _ Ht) as Htid.
  pose proof (has_key_fresh _ _ Hm) as Hmid.
  pose proof (has_key_ensured user_id db) as Hacct.
  eexists. exists (ensured user_id db). eexists. eexists.
  exists (income_result user_id amt db).
  split; [apply run_ensure_points_account|].
  split; [reflexivity|].
  split; [rewrite run_insert_transaction; reflexivity|].
  split; [reflexivity|].
  split.
  { rewrite run_insert_mutation. cbn [ensured transaction]. 
    now rewrite Htid. }
  split.
  { rewrite run_insert_mutation.
    cbn [ensured account transaction map transaction_pk transaction_id_seq].
    now rewrite has_key_head, Hacct. }
  split; [reflexivity|].
  split.
  { rewrite run_insert_account_balance. cbn [ensured account mutation].
    now rewrite Hmid, andb_false_r. }
  split.
  { rewrite run_insert_account_balance.
    cbn [ensured account mutation map mutation_pk mutation_id_seq].
    rewrite has_key_head, Hacct. reflexivity. }
  split; [reflexivity|].
  split; [reflexivity|].
  split; [reflexivity|].
  apply income_run.
Qed.

Lemma income_commit_order_witness :
  let db := after_transfer in
  let acct := points_account_id 9 db in
  let tid := transaction_id_seq db in
  let mid := mutation_id_seq db in
  exists account db1 db2 db3 db4,
    run (UserAccount.ensure_points_account 9) db = inr (account, db1)
    /\ UserAccount.id account = acct
    /\ run (insert_transaction income) db1 = inr (tid, db2)
    /\ transaction db2 = TransactionRow tid income :: transaction db
    /\ run (insert_mutation tid acct 10) db1 = inl ForeignKeyViolation
    /\ run (insert_mutation tid acct 10) db2 = inr (mid, db3)
    /\ mutation db3 = MutationRow mid tid acct 10 :: mutation db
    /\ run (insert_account_balance acct mid 10) db2 = inl ForeignKeyViolation
    /\ run (insert_account_balance acct mid 10) db3
       = inr (current_balance db3 acct + 10, db4)
    /\ account_balance db4
       = AccountBalanceRow acct mid (current_balance db3 acct + 10) :: account_balance db
    /\ transaction db4 = transaction db2
    /\ mutation db4 = mutation db3
    /\ run (create_transaction_income 9 (Points.Points 10)) db = inr (tid, db4).
Proof.
  apply (income_commit_order after_transfer 9 (Points.Points 10)).
  reflexivity.
Defined.

Example income_returns_transaction_id :
  exists db',
    run (create_transaction_income 9 (Points.Points 10)) after_transfer = inr (3, db')
    /\ transaction db' = TransactionRow 3 income :: transaction after_transfer
    /\ mutation db' = MutationRow 4 3 3 10 :: mutation after_transfer
    /\ account db' = AccountRow 3 (User 9) :: account after_transfer.
Proof. eexists. split; [reflexivity|]. repeat split. Qed.

(** C7. [create_transaction_income] first ensures the points account of
    the owner: a user who has one keeps it and the account table is left
    alone, a user who has none gets a new account row, and in both cases
    the call goes on and returns.  It then commits one income transaction
    against that account: one transaction row of type income, one mutation
    row of the amount on the account, which is the only mutation of the
    transaction, and one balance snapshot for that mutation, so that the
    balance of the account grows by the amount.  What the call returns is
    the key of the transaction row it inserted, a key no earlier
    transaction has. *)
Theorem income_ensures_account (db : Database) (user_id : Z) (amt : Points.t) :
  well_formed db = true ->
  exists tid db' r,
    run (create_transaction_income user_id amt) db = inr (tid, db')
    /\ UserAccount.find_points_account user_id db' = Some r
    /\ account_owner r = User user_id
    /\ (forall r0, UserAccount.find_points_account user_id db = Some r0 ->
        r = r0 /\ account db' = account db)
    /\ (UserAccount.find_points_account user_id db = None ->
        r = AccountRow (account_id_seq db) (User user_id)
        /\ account db' = r :: account db)
    /\ transaction db' = TransactionRow tid income :: transaction db
    /\ ~ In tid (map transaction_pk (transaction db))
    /\ mutation db'
       = MutationRow (mutation_id_seq db) tid (account_pk r) (Points.amount amt)
         :: mutation db
    /\ mutations_of_transaction db' tid
       = [MutationRow (mutation_id_seq db) tid (account_pk r) (Points.amount amt)]
    /\ account_balance db'
       = AccountBalanceRow (account_pk r) (mutation_id_seq db)
           (current_balance db (account_pk r) + Points.amount amt)
         :: account_balance db
    /\ current_balance db' (account_pk r)
       = current_balance db (account_pk r) + Points.amount amt.
Proof.
  intros Hwf.
  destruct (find_points_account_income user_id amt db) as (r & Hr & Hpk & Hown).
  exists (transaction_id_seq db), (income_result user_id amt db), r.
  split; [apply income_run|].
  split; [exact Hr|].
  split; [exact Hown|].
  unfold UserAccount.find_points_account in Hr. cbn [account income_result] in Hr.
  unfold ensured_accounts in Hr.
  split; [|split; [|split; [|split; [|split; [|split; [|split]]]]]].
  - intros r0 Hr0. cbn [account income_result]. unfold ensured_accounts.
    rewrite Hr0 in Hr |- *.
    unfold UserAccount.find_points_account in Hr0. split; congruence.
  - intros Hnone. cbn [account income_result]. unfold ensured_accounts.
    rewrite Hnone in Hr |- *.
    simpl in Hr. rewrite Z.eqb_refl in Hr. injection Hr as <-. split; reflexivity.
  - reflexivity.
  - intros Hin. apply well_formed_spec in Hwf. destruct Hwf as (_ & Ht & _).
    rewrite Forall_forall in Ht. specialize (Ht _ Hin). lia.
  - cbn [mutation income_result]. unfold income_mutation_row. now rewrite Hpk.
  - rewrite mutations_of_new_transaction by assumption.
    unfold income_mutation_row. now rewrite Hpk.
  - cbn [account_balance income_result]. unfold income_snapshot_row. now rewrite Hpk.
  - rewrite Hpk. now apply income_balance.
Qed.

Lemma income_ensures_account_witness :
  exists tid db' r,
    run (create_transaction_income 9 (Points.Points 10)) after_transfer = inr (tid, db')
    /\ UserAccount.find_points_account 9 db' = Some r
    /\ account_owner r = User 9
    /\ (forall r0, UserAccount.find_points_account 9 after_transfer = Some r0 ->
        r = r0 /\ account db' = account after_transfer)
    /\ (UserAccount.find_points_account 9 after_transfer = None ->
        r = AccountRow (account_id_seq after_transfer) (User 9)
        /\ account db' = r :: account after_transfer)
    /\ transaction db' = TransactionRow tid income :: transaction after_transfer
    /\ ~ In tid (map transaction_pk (transaction after_transfer))
    /\ mutation db'
       = MutationRow (mutation_id_seq after_transfer) tid (account_pk r) 10
         :: mutation after_transfer
    /\ mutations_of_transaction db' tid
       = [MutationRow (mutation_id_seq after_transfer) tid (account_pk r) 10]
    /\ account_balance db'
       = AccountBalanceRow (account_pk r) (mutation_id_seq after_transfer)
           (current_balance after_transfer (account_pk r) + 10)
         :: account_balance after_transfer
    /\ current_balance db' (account_pk r)
       = current_balance after_transfer (account_pk r) + 10.
Proof.
  apply (income_ensures_account after_transfer 9 (Points.Points 10)).
  reflexivity.
Defined.

(** C8. Frame: the rows a call of [create_transaction_income] for a user
    adds to the mutation table and to the snapshot table are on the points
    account of that user; for every other account the mutations, the
    snapshots, the history and the current balance are the ones from
    before the call. *)
Theorem income_frame
  (db : Database) (user_id : Z) (amt : Points.t) (tid : Z) (db' : Database) (acct : Z) :
  run (create_transaction_income user_id amt) db = inr (tid, db') ->
  acct <> points_account_id user_id db ->
  (forall m, In m (mutation db') ->
     In m (mutation db) \/ debit_account_id m = points_account_id user_id db)
  /\ (forall b, In b (account_balance db') ->
        In b (account_balance db) \/ account_id b = points_account_id user_id db)
  /\ filter (fun m => debit_account_id m =? acct) (mutation db')
     = filter (fun m => debit_account_id m =? acct) (mutation db)
  /\ filter (fun b => account_id b =? acct) (account_balance db')
     = filter (fun b => account_id b =? acct) (account_balance db)
  /\ history db' acct = history db acct
  /\ snapshots db' acct = snapshots db acct
  /\ current_balance db' acct = current_balance db acct.
Proof.
  intros Hrun Hacct. apply income_run_inv in Hrun as [_ ->].
  split; [|split; [|split; [|split; [|split; [|split]]]]].
  - intros m [<-|Hm]; [now right|now left].
  - intros b [<-|Hb]; [now right|now left].
  - now apply income_mutations_other.
  - now apply income_snapshots_other.
  - now apply income_history_other.
  - unfold snapshots. now rewrite income_snapshots_other.
  - now apply income_balance_other.
Qed.

Lemma income_frame_witness :
  let db := after_transfer in
  let db' := income_result 7 (Points.Points 50) after_transfer in
  (forall m, In m (mutation db') ->
     In m (mutation db) \/ debit_account_id m = points_account_id 7 db)
  /\ (forall b, In b (account_balance db') ->
        In b (account_balance db) \/ account_id b = points_account_id 7 db)
  /\ filter (fun m => debit_account_id m =? 2) (mutation db')
     = filter (fun m => debit_account_id m =? 2) (mutation db)
  /\ filter (fun b => account_id b =? 2) (account_balance db')
     = filter (fun b => account_id b =? 2) (account_balance db)
  /\ history db' 2 = history db 2
  /\ snapshots db' 2 = snapshots db 2
  /\ current_balance db' 2 = current_balance db 2.
Proof.
  apply (income_frame after_transfer 7 (Points.Points 50) 3
           (income_result 7 (Points.Points 50) after_transfer) 2).
  - reflexivity.
  - vm_compute. discriminate.
Defined.

(** * Properties of the colours *)

(** ** Formatting and parsing one byte *)

Lemma bytes_round_trip : forallb byte_round_trips (map Z.of_nat (seq 0 256)) = true.
Proof. vm_compute. reflexivity. Qed.

Lemma byte_format (n : Z) :
  0 <= n <= 255 ->
  exists c1 c2 top bot,
    Color.format_02x n = String c1 (String c2 EmptyString)
    /\ Color.is_space c1 = false
    /\ Color.digit_value c1 = Some top
    /\ Color.digit_value c2 = Some bot
    /\ 16 * top + bot = n.
Proof.
  intros Hn.
  assert (Hin : In n (map Z.of_nat (seq 0 256))).
  { apply in_map_iff. exists (Z.to_nat n). split; [lia|]. apply in_seq. lia. }
  pose proof (proj1 (forallb_forall _ _) bytes_round_trip n Hin) as H.
  unfold byte_round_trips in H.
  destruct (Color.format_02x n) as [|c1 [|c2 [|]]]; try discriminate H.
  apply andb_prop in H as [Hspace H].
  destruct (Color.digit_value c1) as [top|] eqn:Htop; [|discriminate H].
  destruct (Color.digit_value c2) as [bot|] eqn:Hbot; [|discriminate H].
  exists c1, c2, top, bot.
  split; [reflexivity|].
  split; [now destruct (Color.is_space c1)|].
  split; [exact Htop|].
  split; [exact Hbot|].
  now apply Z.eqb_eq.
Qed.

Lemma fromhex_byte c1 c2 top bot s :
  Color.is_space c1 = false ->
  Color.digit_value c1 = Some top ->
  Color.digit_value c2 = Some bot ->
  Color.fromhex (String c1 (String c2 s))
  = match Color.fromhex s with
    | inr bytes => inr (16 * top + bot :: bytes)
    | inl e => inl e
    end.
Proof.
  intros Hspace Htop Hbot. cbn [Color.fromhex]. now rewrite Hspace, Htop, Hbot.
Qed.

(** C9. The hexadecimal formatter and parser round trip: parsing the text
    [to_html_hex] gives for a colour whose three components range from 0
    to 255 returns that colour. *)
Theorem html_hex_round_trip (c : Color.t) :
  Color.in_range c ->
  Color.from_html_hex (Color.to_html_hex c) = inr c.
Proof.
  destruct c as [r g b]. unfold Color.in_range. cbn [Color.r Color.g Color.b].
  intros (Hr & Hg & Hb).
  destruct (byte_format r Hr) as (r1 & r2 & rt & rb & Er & Sr & Tr & Br & <-).
  destruct (byte_format g Hg) as (g1 & g2 & gt & gb & Eg & Sg & Tg & Bg & <-).
  destruct (byte_format b Hb) as (b1 & b2 & bt & bb & Eb & Sb & Tb & Bb & <-).
  unfold Color.to_html_hex, Color.from_html_hex.
  cbn [Color.r Color.g Color.b]. rewrite Er, Eg, Eb.
  cbn [String.append String.prefix String.length Color.tail Nat.eqb Color.assert].
  rewrite (fromhex_byte r1 r2 rt rb _ Sr Tr Br).
  rewrite (fromhex_byte g1 g2 gt gb _ Sg Tg Bg).
  rewrite (fromhex_byte b1 b2 bt bb _ Sb Tb Bb).
  reflexivity.
Qed.

Lemma html_hex_round_trip_witness :
  Color.from_html_hex (Color.to_html_hex (Color.Color 255 0 10))
  = inr (Color.Color 255 0 10).
Proof.
  apply (html_hex_round_trip (Color.Color 255 0 10)).
  unfold Color.in_range. simpl. lia.
Defined.

Example to_html_hex_example :
  Color.to_html_hex (Color.Color 255 0 10) = "#ff000a"%string.
Proof. reflexivity. Qed.

Example from_html_hex_errors :
  Color.from_html_hex "ff000a0"%string = inl AssertionError
  /\ Color.from_html_hex "#ff000"%string = inl AssertionError
  /\ Color.from_html_hex "#ff00zz"%string = inl ValueError
  /\ Color.from_html_hex "#ff 00 "%string = inl IndexError.
Proof. repeat split. Qed.

(** ** Rounding a product *)

Lemma digits2_pos_size p : digits2_pos p = Pos.size p.
Proof. induction p; simpl; congruence. Qed.

Lemma Zdigits2_bounds p :
  2 ^ (Zdigits2 (Zpos p) - 1) <= Zpos p < 2 ^ Zdigits2 (Zpos p).
Proof.
  unfold Zdigits2. rewrite digits2_pos_size.
  pose proof (Pos.size_gt p) as Hgt. pose proof (Pos.size_le p) as Hle.
  apply Pos2Z.pos_lt_pos in Hgt. apply Pos2Z.pos_le_pos in Hle.
  rewrite Pos2Z.inj_pow in Hgt, Hle.
  replace (Z.pos (Pos.size p)) with (Z.succ (Z.pos (Pos.size p) - 1)) in Hle by lia.
  rewrite Z.pow_succ_r in Hle by lia.
  change (Z.pos p~0) with (2 * Z.pos p) in Hle.
  split; [lia|exact Hgt].
Qed.

Lemma Zdigits2_le m k : 0 <= k -> 0 <= m < 2 ^ k -> Zdigits2 m <= k.
Proof.
  intros Hk [Hm0 Hm]. destruct m as [|p|p]; [simpl; lia| |lia].
  destruct (Zdigits2_bounds p) as [Hlo _].
  destruct (Z.le_gt_cases (Zdigits2 (Z.pos p)) k) as [|Hgt]; [assumption|].
  assert (2 ^ k <= 2 ^ (Zdigits2 (Z.pos p) - 1)) by (apply Z.pow_le_mono_r; lia).
  lia.
Qed.

Lemma shr_1_m mrs : 0 <= shr_m mrs -> shr_m (shr_1 mrs) = shr_m mrs / 2.
Proof.
  destruct mrs as [m r s]. cbn [shr_m]. intros Hm.
  destruct m as [|[p|p|]|p]; try lia; cbn [shr_1 shr_m].
  - reflexivity.
  - apply Z.div_unique with (r := 1); lia.
  - apply Z.div_unique with (r := 0); lia.
  - reflexivity.
Qed.

Lemma iter_shr_1_m n mrs :
  0 <= shr_m mrs -> shr_m (iter_pos shr_1 n mrs) = shr_m mrs / 2 ^ Zpos n.
Proof.
  revert mrs. induction n as [n IH|n IH|]; intros mrs Hm; simpl iter_pos.
  - assert (H1 : 0 <= shr_m (shr_1 mrs)).
    { rewrite shr_1_m by assumption. apply Z.div_pos; lia. }
    assert (H2 : 0 <= shr_m (iter_pos shr_1 n (shr_1 mrs))).
    { rewrite IH by assumption. apply Z.div_pos; [lia|]. apply Z.pow_pos_nonneg; lia. }
    rewrite IH, IH, shr_1_m by assumption.
    rewrite !Z.div_div by (try apply Z.pow_pos_nonneg; lia).
    f_equal. rewrite Pos2Z.inj_xI, Z.pow_add_r, Z.pow_mul_r by lia.
    change (2 ^ 2) with 4. change (2 ^ 1) with 2.
    replace (4 ^ Z.pos n) with (2 ^ Z.pos n * 2 ^ Z.pos n).
    + lia.
    + rewrite <- Z.pow_mul_l. reflexivity.
  - assert (H2 : 0 <= shr_m (iter_pos shr_1 n mrs)).
    { rewrite IH by assumption. apply Z.div_pos; [lia|]. apply Z.pow_pos_nonneg; lia. }
    rewrite IH, IH by assumption.
    rewrite !Z.div_div by (try apply Z.pow_pos_nonneg; lia).
    f_equal. rewrite Pos2Z.inj_xO, <- Z.pow_add_r by lia. f_equal. lia.
  - rewrite shr_1_m by assumption. reflexivity.
Qed.

Lemma shr_record_of_loc_m m l : shr_m (shr_record_of_loc m l) = m.
Proof. destruct l as [|[]]; reflexivity. Qed.

Lemma shr_spec mrs e n :
  0 <= shr_m mrs ->
  exists mrs',
    shr mrs e n = (mrs', e + Z.max 0 n)
    /\ shr_m mrs' = shr_m mrs / 2 ^ Z.max 0 n.
Proof.
  intros Hm. destruct n as [|p|p]; cbn [shr].
  - exists mrs. rewrite Z.add_0_r. split; [reflexivity|]. now rewrite Z.div_1_r.
  - exists (iter_pos shr_1 p mrs). rewrite Z.max_r by lia.
    split; [reflexivity|]. now apply iter_shr_1_m.
  - exists mrs. rewrite Z.max_l by lia. rewrite Z.add_0_r.
    split; [reflexivity|]. now rewrite Z.div_1_r.
Qed.

Lemma shr_fexp_spec m e l :
  0 <= m ->
  exists mrs,
    shr_fexp Float.prec Float.emax m e l
    = (mrs, e + Z.max 0 (fexp Float.prec Float.emax (Zdigits2 m + e) - e))
    /\ shr_m mrs = m / 2 ^ Z.max 0 (fexp Float.prec Float.emax (Zdigits2 m + e) - e).
Proof.
  intros Hm. unfold shr_fexp.
  destruct (shr_spec (shr_record_of_loc m l) e
              (fexp Float.prec Float.emax (Zdigits2 m + e) - e)) as (mrs & H1 & H2).
  { now rewrite shr_record_of_loc_m. }
  exists mrs. rewrite shr_record_of_loc_m in H2. now split.
Qed.

Lemma round_nearest_even_bounds m l :
  m <= round_nearest_even m l <= m + 1.
Proof.
  destruct l as [|[]]; simpl; try lia. destruct (Z.even m); lia.
Qed.

Lemma fexp_eq e : fexp Float.prec Float.emax e = Z.max (e - 53) (-1074).
Proof. reflexivity. Qed.

Lemma binary_round_aux_finite sx p ex :
  Z.max ex (fexp Float.prec Float.emax (Zdigits2 (Zpos p) + ex)) + 1 <= 971 ->
  Float.is_finite (binary_round_aux Float.prec Float.emax sx (Zpos p) ex loc_Exact) = true.
Proof.
  intros Hex. unfold binary_round_aux.
  destruct (shr_fexp_spec (Zpos p) ex loc_Exact) as (mrs1 & E1 & M1); [lia|].
  rewrite E1.
  set (k1 := Z.max 0 (fexp Float.prec Float.emax (Zdigits2 (Z.pos p) + ex) - ex)) in *.
  set (m1 := round_nearest_even (shr_m mrs1) (loc_of_shr_record mrs1)).
  assert (Hk1 : 0 <= k1 /\ Zdigits2 (Z.pos p) - 53 <= k1).
  { unfold k1. rewrite fexp_eq. lia. }
  assert (Hm1 : 0 <= shr_m mrs1 < 2 ^ 53).
  { rewrite M1. split.
    - apply Z.div_pos; [lia|]. apply Z.pow_pos_nonneg; lia.
    - apply Z.div_lt_upper_bound; [apply Z.pow_pos_nonneg; lia|].
      rewrite <- Z.pow_add_r by lia.
      destruct (Zdigits2_bounds p) as [_ Hp].
      eapply Z.lt_le_trans; [exact Hp|]. apply Z.pow_le_mono_r; lia. }
  pose proof (round_nearest_even_bounds (shr_m mrs1) (loc_of_shr_record mrs1)) as Hr.
  fold m1 in Hr.
  assert (Hd1 : Zdigits2 m1 <= 54).
  { apply Zdigits2_le; [lia|]. change (2 ^ 54) with (2 * 2 ^ 53). lia. }
  destruct (shr_fexp_spec m1 (ex + k1) loc_Exact) as (mrs2 & E2 & M2); [lia|].
  rewrite E2.
  assert (Hm2 : 0 <= shr_m mrs2).
  { rewrite M2. apply Z.div_pos; [lia|]. apply Z.pow_pos_nonneg; lia. }
  destruct (shr_m mrs2) as [|q|q]; [reflexivity| |lia].
  match goal with |- context [Z.leb ?a ?b] => destruct (Z.leb_spec a b) as [|Hgt] end;
    [reflexivity|].
  exfalso. revert Hgt. unfold k1 in *. rewrite !fexp_eq in *.
  change (Float.emax - Float.prec) with 971. lia.
Qed.

Lemma mul_f255_finite s m e :
  Float.valid (S754_finite s m e) = true ->
  e <= 962 ->
  Float.is_finite (Float.mul (S754_finite s m e) Float.f255) = true.
Proof.
  intros Hvalid He. unfold Float.mul, Float.f255. cbn [SFmul].
  apply binary_round_aux_finite.
  unfold Float.valid, valid_binary, bounded, canonical_mantissa in Hvalid.
  apply andb_prop in Hvalid as [Hcanon _]. apply Z.eqb_eq in Hcanon.
  rewrite fexp_eq in Hcanon |- *.
  assert (Hm : Z.pos m < 2 ^ 53).
  { destruct (Zdigits2_bounds m) as [_ Hm]. eapply Z.lt_le_trans; [exact Hm|].
    apply Z.pow_le_mono_r; [lia|]. unfold Zdigits2. lia. }
  assert (Hd : Zdigits2 (Z.pos (m * 8972014882652160)) <= 106).
  { apply Zdigits2_le; [lia|]. rewrite Pos2Z.inj_mul.
    change (2 ^ 106) with (2 ^ 53 * 2 ^ 53).
    assert (Z.pos 8972014882652160 < 2 ^ 53) by reflexivity.
    split; [lia|]. apply Z.mul_lt_mono_nonneg; lia. }
  lia.
Qed.

Lemma moderate_mul_f255_finite x :
  Float.moderate x = true -> Float.is_finite (Float.mul x Float.f255) = true.
Proof.
  destruct x as [s|s| |s m e]; simpl Float.moderate; try discriminate.
  - reflexivity.
  - intros H. apply andb_prop in H as [Hvalid He].
    apply mul_f255_finite; [exact Hvalid|]. now apply Z.leb_le.
Qed.

(** ** Colours from floats *)

Lemma int_returns (x : Float.float) :
  (exists n, Float.int x = inr n) <-> Float.is_finite x = true.
Proof.
  destruct x as [s|s| |s m e]; simpl; split;
    try (intros [n H]; discriminate H); try discriminate; try reflexivity;
    intros _; eexists; reflexivity.
Qed.

Lemma from_rgb_floats_returns (r g b : Float.float) :
  (exists c, Color.from_rgb_floats r g b = inr c)
  <-> Float.is_finite (Float.mul r Float.f255) = true
      /\ Float.is_finite (Float.mul g Float.f255) = true
      /\ Float.is_finite (Float.mul b Float.f255) = true.
Proof.
  unfold Color.from_rgb_floats. rewrite <- !int_returns. simpl.
  destruct (Float.int (Float.mul r Float.f255)) as [er|r'];
    destruct (Float.int (Float.mul g Float.f255)) as [eg|g'];
    destruct (Float.int (Float.mul b Float.f255)) as [eb|b'];
    split;
    try (intros [c H]; discriminate H);
    try (intros ([n H] & _); discriminate H);
    try (intros (_ & [n H] & _); discriminate H);
    try (intros (_ & _ & [n H]); discriminate H).
  - intros _. repeat split; eexists; reflexivity.
  - intros _. eexists; reflexivity.
Qed.

Lemma from_rgb_floats_clamps (r g b : Float.float) (c : Color.t) :
  Color.from_rgb_floats r g b = inr c -> Color.in_range c.
Proof.
  unfold Color.from_rgb_floats. simpl.
  destruct (Float.int (Float.mul r Float.f255)) as [er|r']; [discriminate|].
  destruct (Float.int (Float.mul g Float.f255)) as [eg|g']; [discriminate|].
  destruct (Float.int (Float.mul b Float.f255)) as [eb|b']; [discriminate|].
  intros [= <-]. unfold Color.in_range. simpl. lia.
Qed.

Example from_rgb_floats_examples :
  (* 2.0, -1.0, 0.5 *)
  Color.from_rgb_floats
    (S754_finite false 4503599627370496 (-51))
    (S754_finite true 4503599627370496 (-52))
    (S754_finite false 4503599627370496 (-53))
  = inr (Color.Color 255 0 127)
  /\ Color.from_rgb_floats S754_nan (S754_zero false) (S754_zero false)
     = inl ValueError
  /\ Color.from_rgb_floats (S754_zero false) (S754_infinity true) (S754_zero false)
     = inl OverflowError.
Proof. repeat split. Qed.

Example f255_is_255 :
  Float.f255 = Float.nearest 255 /\ Float.int Float.f255 = inr 255.
Proof. split; reflexivity. Qed.

Example float_max_valid :
  Float.valid Float.float_max = true
  /\ Float.valid Float.f255 = true
  /\ Float.mul Float.float_max Float.f255 = S754_infinity false.
Proof. repeat split. Qed.

(** C10, as stated, fails: for the greatest finite float the product with
    255.0 overflows to an infinity, of which [int] raises [OverflowError],
    so no colour is returned. *)
Lemma from_rgb_floats_overflows :
  ~ Color.returns_valid_color Float.float_max (S754_zero false) (S754_zero false).
Proof.
  unfold Color.returns_valid_color. intros (c & H & _).
  vm_compute in H. discriminate H.
Qed.

(** C10, amended. For all finite floats of magnitude below [2 ^ 1015], in
    the unit interval or outside of it, [from_rgb_floats] returns a colour
    and its three components range from 0 to 255. *)
Theorem from_rgb_floats_in_range (r g b : Float.float) :
  Float.moderate r = true ->
  Float.moderate g = true ->
  Float.moderate b = true ->
  exists c, Color.from_rgb_floats r g b = inr c /\ Color.in_range c.
Proof.
  intros Hr Hg Hb.
  destruct (proj2 (from_rgb_floats_returns r g b)) as [c Hc].
  - repeat split; now apply moderate_mul_f255_finite.
  - exists c. split; [exact Hc|]. now apply (from_rgb_floats_clamps r g b).
Qed.

Lemma from_rgb_floats_in_range_witness :
  exists c,
    Color.from_rgb_floats
      (S754_finite false 4503599627370496 (-51))
      (S754_finite true 4503599627370496 (-52))
      (S754_finite false 4503599627370496 (-53))
    = inr c
    /\ Color.in_range c.
Proof.
  apply (from_rgb_floats_in_range
           (S754_finite false 4503599627370496 (-51))
           (S754_finite true 4503599627370496 (-52))
           (S754_finite false 4503599627370496 (-53))); reflexivity.
Defined.

(** * Further properties of the ledger *)

(** ** Running totals *)

Lemma running_totals_app previous h m :
  running_totals previous (h ++ [m])
  = running_totals previous h ++ [(mutation_pk m, previous + replay h + amount m)].
Proof.
  revert previous. induction h as [|x h IH]; intros previous; simpl.
  - unfold replay. simpl. now rewrite Z.add_0_r.
  - rewrite IH, replay_cons, !Z.add_assoc. reflexivity.
Qed.

Lemma totals_recorded_income user_id amt db :
  well_formed db = true -> replay_consistent db -> totals_recorded db ->
  totals_recorded (income_result user_id amt db).
Proof.
  intros Hwf Hreplay Hdb acct.
  destruct (Z.eq_dec acct (points_account_id user_id db)) as [->|Hacct].
  - rewrite income_snapshots_own, income_history_own by assumption.
    rewrite map_app, running_totals_app, Hdb. simpl. now rewrite <- Hreplay.
  - unfold snapshots. rewrite income_snapshots_other by assumption.
    rewrite income_history_other by assumption. apply Hdb.
Qed.

Lemma committed_totals_recorded db : committed db -> totals_recorded db.
Proof.
  induction 1 as [|db user_id amt tid db' Hdb IH Hrun].
  - intros acct. reflexivity.
  - apply income_run_inv in Hrun as [_ ->].
    apply totals_recorded_income; try assumption.
    + now apply committed_well_formed.
    + now apply committed_replay_consistent.
Qed.

(** X1. After any sequence of income transactions the snapshots of an
    account, in the order of their mutation ids, are the running totals
    of its history: the i-th snapshot belongs to the i-th mutation of the
    account and holds the sum of the first i amounts. *)
Theorem snapshots_are_running_totals (db : Database) (acct : Z) :
  committed db ->
  map (fun b => (mutation_id b, post_balance b)) (snapshots db acct)
  = running_totals 0 (history db acct).
Proof. intros Hdb. now apply committed_totals_recorded. Qed.

(** ** Non-negative incomes *)

Lemma replay_nonneg h : Forall (fun m => 0 <= amount m) h -> 0 <= replay h.
Proof.
  induction 1 as [|m h Hm _ IH]; [unfold replay; simpl; lia|].
  rewrite replay_cons. lia.
Qed.

(** X5. When no income of a negative amount was committed, no account
    has a negative balance. *)
Theorem balance_nonneg (db : Database) (acct : Z) :
  committed db ->
  Forall (fun m => 0 <= amount m) (mutation db) ->
  0 <= current_balance db acct.
Proof.
  intros Hdb Hall. rewrite (committed_replay_consistent db Hdb acct).
  apply replay_nonneg, Forall_forall. intros m Hm.
  apply sort_by_In, filter_In in Hm as [Hm _].
  rewrite Forall_forall in Hall. now apply Hall.
Qed.

(** ** Two calls in sequence *)

Lemma points_account_id_income user_id amt db :
  points_account_id user_id (income_result user_id amt db) = points_account_id user_id db.
Proof.
  destruct (find_points_account_income user_id amt db) as (r & Hr & Hpk & _).
  unfold points_account_id at 1. now rewrite Hr.
Qed.

Lemma ensured_accounts_income user_id amt db :
  ensured_accounts user_id (income_result user_id amt db) = ensured_accounts user_id db.
Proof.
  destruct (find_points_account_income user_id amt db) as (r & Hr & _).
  unfold ensured_accounts at 1. now rewrite Hr.
Qed.

(** X2. Two income transactions for one user in a row both return, with
    consecutive transaction ids; the balance of the account grows by the
    sum of the two amounts (nothing is lost), the account is ensured once
    and serves both, and two mutations and two snapshots are added. *)
Theorem income_twice_adds_up (db : Database) (user_id : Z) (first second : Points.t) :
  well_formed db = true ->
  exists t1 t2 db',
    run (income_twice user_id first second) db = inr ((t1, t2), db')
    /\ t2 = t1 + 1
    /\ current_balance db' (points_account_id user_id db)
       = current_balance db (points_account_id user_id db)
         + Points.amount first + Points.amount second
    /\ account db' = ensured_accounts user_id db
    /\ (List.length (mutation db') = 2 + List.length (mutation db))%nat
    /\ (List.length (account_balance db') = 2 + List.length (account_balance db))%nat.
Proof.
  intros Hwf.
  exists (transaction_id_seq db), (transaction_id_seq db + 1),
    (income_result user_id second (income_result user_id first db)).
  split.
  { unfold income_twice. rewrite run_bind, income_run, run_bind, income_run.
    reflexivity. }
  split; [reflexivity|].
  split.
  { rewrite <- (points_account_id_income user_id first db) at 1.
    rewrite income_balance by now apply well_formed_income.
    rewrite points_account_id_income, income_balance by assumption. reflexivity. }
  split; [apply ensured_accounts_income|].
  split; reflexivity.
Qed.

Lemma income_twice_adds_up_witness :
  exists t1 t2 db',
    run (income_twice 9 (Points.Points 10) (Points.Points 20)) after_transfer
    = inr ((t1, t2), db')
    /\ t2 = t1 + 1
    /\ current_balance db' (points_account_id 9 after_transfer)
       = current_balance after_transfer (points_account_id 9 after_transfer) + 10 + 20
    /\ account db' = ensured_accounts 9 after_transfer
    /\ (List.length (mutation db') = 2 + List.length (mutation after_transfer))%nat
    /\ (List.length (account_balance db')
        = 2 + List.length (account_balance after_transfer))%nat.
Proof.
  apply (income_twice_adds_up after_transfer 9 (Points.Points 10) (Points.Points 20)).
  reflexivity.
Defined.

(** ** Accounts and users *)

Lemma account_keys_below db :
  well_formed db = true ->
  Forall (fun k => k < account_id_seq db) (map account_pk (account db)).
Proof. intros Hwf. apply well_formed_spec in Hwf. apply Hwf. Qed.

Lemma account_keys_unique_income user_id amt db :
  well_formed db = true -> account_keys_unique db ->
  account_keys_unique (income_result user_id amt db).
Proof.
  unfold account_keys_unique. intros Hwf Hdb. cbn [account income_result].
  unfold ensured_accounts.
  destruct (UserAccount.find_points_account user_id db); [assumption|].
  simpl. constructor; [|assumption].
  intros Hin. pose proof (account_keys_below db Hwf) as Hbelow.
  rewrite Forall_forall in Hbelow. specialize (Hbelow _ Hin). lia.
Qed.

Lemma committed_account_keys_unique db : committed db -> account_keys_unique db.
Proof.
  induction 1 as [|db user_id amt tid db' Hdb IH Hrun].
  - constructor.
  - apply income_run_inv in Hrun as [_ ->].
    apply account_keys_unique_income; [now apply committed_well_formed|assumption].
Qed.

Lemma committed_log_committed log db : committed_log log db -> committed db.
Proof.
  induction 1 as [|log db user_id amt tid db' _ IH Hrun].
  - apply committed_empty.
  - now apply (committed_income db user_id amt tid db').
Qed.

Lemma scenario_2_log :
  committed_log [(7, Points.Points 50); (7, Points.Points 100)] scenario_2.
Proof.
  apply (committed_log_income [(7, Points.Points 100)] scenario_1 7 (Points.Points 50)
           2 scenario_2).
  - apply (committed_log_income [] empty 7 (Points.Points 100) 1 scenario_1).
    + apply committed_log_empty.
    + reflexivity.
  - reflexivity.
Qed.

Lemma scenario_2_committed : committed scenario_2.
Proof. exact (committed_log_committed _ _ scenario_2_log). Qed.

Lemma find_points_account_other user_id amt db other :
  other <> user_id ->
  UserAccount.find_points_account other (income_result user_id amt db)
  = UserAccount.find_points_account other db.
Proof.
  intros Hother. unfold UserAccount.find_points_account.
  cbn [account income_result]. unfold ensured_accounts.
  destruct (UserAccount.find_points_account user_id db); [reflexivity|].
  simpl. now rewrite (proj2 (Z.eqb_neq _ _) (not_eq_sym Hother)).
Qed.

Lemma account_of_other_user user_id db other r :
  well_formed db = true -> account_keys_unique db ->
  other <> user_id ->
  UserAccount.find_points_account other db = Some r ->
  account_pk r <> points_account_id user_id db.
Proof.
  intros Hwf Huniq Hother Hr. unfold points_account_id.
  apply find_points_account_some in Hr as [Hin Hown].
  destruct (UserAccount.find_points_account user_id db) as [r0|] eqn:Hr0.
  - apply find_points_account_some in Hr0 as [Hin0 Hown0].
    intros Hpk.
    assert (r = r0); [|subst; congruence].
    revert Huniq Hin Hin0 Hpk. unfold account_keys_unique.
    generalize (account db). intros l. induction l as [|x l IH]; simpl; [tauto|].
    intros Hnd [<-|Hr] [<-|Hr0] Hpk; inversion Hnd as [|? ? Hx Hl]; subst.
    + reflexivity.
    + exfalso. apply Hx. rewrite Hpk. now apply in_map.
    + exfalso. apply Hx. rewrite <- Hpk. now apply in_map.
    + now apply IH.
  - pose proof (account_keys_below db Hwf) as Hbelow.
    rewrite Forall_forall in Hbelow.
    specialize (Hbelow _ (in_map account_pk _ _ Hin)). lia.
Qed.

Lemma user_balance_income user_id amt db other :
  well_formed db = true -> account_keys_unique db ->
  user_balance (income_result user_id amt db) other
  = user_balance db other + (if user_id =? other then Points.amount amt else 0).
Proof.
  intros Hwf Huniq.
  destruct (Z.eqb_spec user_id other) as [<-|Hother].
  - destruct (find_points_account_income user_id amt db) as (r & Hr & Hpk & _).
    unfold user_balance at 1. rewrite Hr, Hpk, income_balance by assumption.
    f_equal. unfold user_balance, points_account_id.
    destruct (UserAccount.find_points_account user_id db); [reflexivity|].
    apply current_balance_unknown_account; [assumption|lia].
  - unfold user_balance.
    rewrite find_points_account_other by congruence.
    destruct (UserAccount.find_points_account other db) as [r|] eqn:Hr; [|reflexivity].
    rewrite income_balance_other; [lia|].
    apply (account_of_other_user user_id db other r); try assumption. congruence.
Qed.

(** X3. After any list of income transactions the balance of every user
    is the sum of the amounts the list credits to that user; an income for
    one user never shows in the balance of another. *)
Theorem user_balance_credited (log : list (Z * Points.t)) (db : Database) (user_id : Z) :
  committed_log log db ->
  user_balance db user_id = credited user_id log.
Proof.
  induction 1 as [|log db u amt tid db' Hlog IH Hrun]; [reflexivity|].
  apply income_run_inv in Hrun as [_ ->].
  pose proof (committed_log_committed log db Hlog) as Hdb.
  rewrite user_balance_income, IH.
  - simpl. destruct (u =? user_id); lia.
  - now apply committed_well_formed.
  - now apply committed_account_keys_unique.
Qed.

Lemma user_balance_credited_witness :
  user_balance scenario_2 7
  = credited 7 [(7, Points.Points 50); (7, Points.Points 100)].
Proof.
  apply (user_balance_credited [(7, Points.Points 50); (7, Points.Points 100)] scenario_2 7).
  exact scenario_2_log.
Defined.

Lemma snapshots_are_running_totals_witness :
  map (fun b => (mutation_id b, post_balance b)) (snapshots scenario_2 1)
  = running_totals 0 (history scenario_2 1).
Proof.
  apply (snapshots_are_running_totals scenario_2 1). exact scenario_2_committed.
Defined.

Lemma balance_nonneg_witness : 0 <= current_balance scenario_2 1.
Proof.
  apply (balance_nonneg scenario_2 1).
  - exact scenario_2_committed.
  - repeat constructor; simpl; lia.
Defined.

(** ** The points in existence *)

Lemma Zsum_one_changed (f f' : Z -> Z) (acct a : Z) (keys : list Z) :
  NoDup keys ->
  (forall k, k <> acct -> f' k = f k) ->
  f' acct = f acct + a ->
  Zsum (map f' keys)
  = Zsum (map f keys) + (if existsb (Z.eqb acct) keys then a else 0).
Proof.
  intros Hnd Hother Hacct.
  induction Hnd as [|k keys Hk _ IH]; [reflexivity|].
  cbn [map Zsum fold_right existsb]. fold (Zsum (map f' keys)) (Zsum (map f keys)).
  rewrite IH. destruct (Z.eqb_spec acct k) as [<-|Hne].
  - assert (Hno : existsb (Z.eqb acct) keys = false).
    { destruct (existsb (Z.eqb acct) keys) eqn:E; [|reflexivity].
      apply existsb_exists in E as (x & Hx & Heq). apply Z.eqb_eq in Heq.
      subst. contradiction. }
    rewrite Hno, Hacct. simpl. lia.
  - rewrite Hother by congruence. simpl. lia.
Qed.

Lemma total_supply_income user_id amt db :
  well_formed db = true -> account_keys_unique db ->
  total_supply (income_result user_id amt db) = total_supply db + Points.amount amt.
Proof.
  intros Hwf Huniq. unfold total_supply.
  rewrite <- !map_map with (f := account_pk).
  rewrite (Zsum_one_changed (current_balance db)
             (current_balance (income_result user_id amt db))
             (points_account_id user_id db) (Points.amount amt)).
  - assert (Hin : existsb (Z.eqb (points_account_id user_id db))
                    (map account_pk (account (income_result user_id amt db))) = true).
    { apply existsb_exists. exists (points_account_id user_id db).
      split; [apply points_account_ensured|apply Z.eqb_refl]. }
    rewrite Hin. f_equal.
    cbn [account income_result]. unfold ensured_accounts, points_account_id.
    destruct (UserAccount.find_points_account user_id db); [reflexivity|].
    cbn [map Zsum fold_right account_pk].
    rewrite current_balance_unknown_account by (assumption || lia). reflexivity.
  - now apply account_keys_unique_income.
  - intros k Hk. now apply income_balance_other.
  - now apply income_balance.
Qed.

(** X4. After any sequence of income transactions the points all
    accounts hold together are the points the mutations brought into
    existence: the sum of all current balances is the sum of all mutation
    amounts. *)
Theorem supply_is_created (db : Database) :
  committed db -> total_supply db = total_created db.
Proof.
  induction 1 as [|db user_id amt tid db' Hdb IH Hrun]; [reflexivity|].
  apply income_run_inv in Hrun as [_ ->].
  rewrite total_supply_income, IH.
  - unfold total_created. cbn [mutation income_result map Zsum fold_right].
    fold (Zsum (map amount (mutation db))). simpl. lia.
  - now apply committed_well_formed.
  - now apply committed_account_keys_unique.
Qed.

Lemma supply_is_created_witness : total_supply scenario_2 = total_created scenario_2.
Proof. apply (supply_is_created scenario_2). exact scenario_2_committed. Defined.

(** * Further properties of the colours *)

(** ** All characters *)

Lemma all_chars_complete (c : ascii) : In c all_chars.
Proof.
  unfold all_chars. apply in_map_iff. exists (nat_of_ascii c).
  split; [apply ascii_nat_embedding|].
  apply in_seq. pose proof (nat_ascii_bounded c). lia.
Qed.

Lemma for_all_chars (P : ascii -> bool) :
  forallb P all_chars = true -> forall c, P c = true.
Proof.
  intros H c. apply (proj1 (forallb_forall P all_chars) H), all_chars_complete.
Qed.

Lemma pairs_format :
  forallb (fun c => forallb (pair_formats c) all_chars) all_chars = true.
Proof. vm_compute. reflexivity. Qed.

Lemma digit_pair c d top bot :
  Color.digit_value c = Some top ->
  Color.digit_value d = Some bot ->
  0 <= 16 * top + bot <= 255
  /\ Color.format_02x (16 * top + bot)
     = String (Color.lower_char c) (String (Color.lower_char d) EmptyString).
Proof.
  intros Hc Hd.
  pose proof (for_all_chars _ (for_all_chars _ pairs_format c) d) as H.
  unfold pair_formats in H. rewrite Hc, Hd in H.
  apply andb_prop in H as [H Hfmt]. apply andb_prop in H as [Hlo Hhi].
  apply String.eqb_eq in Hfmt. split; [lia|exact Hfmt].
Qed.

(** ** Parsing *)

Lemma fromhex_cons c s :
  Color.fromhex (String c s)
  = if Color.is_space c then Color.fromhex s
    else
      match Color.digit_value c, s with
      | Some top, String d s'' =>
          match Color.digit_value d with
          | Some bot =>
              match Color.fromhex s'' with
              | inr bytes => inr (16 * top + bot :: bytes)
              | inl e => inl e
              end
          | None => inl ValueError
          end
      | _, _ => inl ValueError
      end.
Proof. reflexivity. Qed.

Lemma append_empty (s : string) : (s ++ EmptyString)%string = s.
Proof. induction s as [|c s IH]; simpl; [reflexivity|now rewrite IH]. Qed.

Lemma hex_text_cons v bytes :
  Color.hex_text (v :: bytes) = (Color.format_02x v ++ Color.hex_text bytes)%string.
Proof. reflexivity. Qed.

Lemma fromhex_shape (n : nat) :
  forall s, (String.length s <= n)%nat ->
  forall bytes, Color.fromhex s = inr bytes ->
    Forall (fun v => 0 <= v <= 255) bytes
    /\ (2 * List.length bytes <= String.length s)%nat
    /\ (String.length s = 2 * List.length bytes ->
        Color.lower s = Color.hex_text bytes)%nat.
Proof.
  induction n as [|n IH]; intros s Hn bytes Hs.
  - destruct s; [|simpl in Hn; lia]. simpl in Hs. injection Hs as <-.
    repeat split; auto.
  - destruct s as [|c s]; [simpl in Hs; injection Hs as <-; repeat split; auto|].
    rewrite fromhex_cons in Hs. simpl String.length in Hn.
    destruct (Color.is_space c).
    + destruct (IH s ltac:(lia) bytes Hs) as (Hb & Hlen & _).
      repeat split; [assumption|simpl; lia|simpl; lia].
    + destruct (Color.digit_value c) as [top|] eqn:Hc; [|discriminate Hs].
      destruct s as [|d s]; [discriminate Hs|].
      destruct (Color.digit_value d) as [bot|] eqn:Hd; [|discriminate Hs].
      destruct (Color.fromhex s) as [e|rest] eqn:Hrest; [discriminate Hs|].
      injection Hs as Hs. change (16 * top + bot :: rest = bytes) in Hs. subst bytes.
      simpl String.length in Hn.
      destruct (IH s ltac:(lia) rest Hrest) as (Hb & Hlen & Htext).
      destruct (digit_pair c d top bot Hc Hd) as [Hrange Hfmt].
      repeat split.
      * now constructor.
      * simpl. lia.
      * intros Heq. simpl in Heq. cbn [Color.lower].
        rewrite hex_text_cons, Hfmt, Htext by lia. reflexivity.
Qed.

Lemma fromhex_error s e : Color.fromhex s = inl e -> e = ValueError.
Proof.
  remember (String.length s) as n eqn:Hn.
  assert (Hle : (String.length s <= n)%nat) by lia. clear Hn.
  revert s Hle. induction n as [|n IH]; intros s Hle.
  - destruct s; [discriminate|simpl in Hle; lia].
  - destruct s as [|c s]; [discriminate|].
    rewrite fromhex_cons. simpl String.length in Hle.
    destruct (Color.is_space c); [apply IH; lia|].
    destruct (Color.digit_value c); [|now intros [= <-]].
    destruct s as [|d s]; [now intros [= <-]|].
    destruct (Color.digit_value d); [|now intros [= <-]].
    destruct (Color.fromhex s) as [e'|rest] eqn:Hrest; [|discriminate].
    intros [= <-]. apply (IH s); [simpl in Hle; lia|exact Hrest].
Qed.

(** [from_html_hex], step by step. *)
Lemma from_html_hex_unfold hex :
  Color.from_html_hex hex
  = if negb (String.prefix "#" hex) then inl AssertionError
    else if negb (String.length hex =? 7)%nat then inl AssertionError
    else match Color.fromhex (Color.tail hex) with
         | inl e => inl e
         | inr (r :: g :: b :: _) => inr (Color.Color r g b)
         | inr _ => inl IndexError
         end.
Proof.
  unfold Color.from_html_hex, Color.assert, Color.index.
  destruct (String.prefix "#" hex); [|reflexivity].
  destruct (String.length hex =? 7)%nat; [|reflexivity].
  simpl. destruct (Color.fromhex (Color.tail hex)) as [e|[|r [|g [|b rest]]]]; reflexivity.
Qed.

(** X6. Whatever text [from_html_hex] accepts, the colour it returns has
    its three components between 0 and 255. *)
Theorem from_html_hex_valid (hex : string) (c : Color.t) :
  Color.from_html_hex hex = inr c -> Color.in_range c.
Proof.
  rewrite from_html_hex_unfold.
  destruct (String.prefix "#" hex); [|discriminate].
  destruct (String.length hex =? 7)%nat; [|discriminate]. simpl.
  destruct (Color.fromhex (Color.tail hex)) as [e|bytes] eqn:Hbytes; [discriminate|].
  destruct (fromhex_shape _ _ (le_n _) _ Hbytes) as (Hrange & _).
  destruct bytes as [|r [|g [|b rest]]]; try discriminate.
  intros [= <-].
  inversion Hrange as [|? ? Hr Hrange1]; subst.
  inversion Hrange1 as [|? ? Hg Hrange2]; subst.
  inversion Hrange2 as [|? ? Hb _]; subst.
  unfold Color.in_range. simpl. tauto.
Qed.

Lemma from_html_hex_valid_witness : Color.in_range (Color.Color 255 0 10).
Proof. apply (from_html_hex_valid "#FF000a" (Color.Color 255 0 10)). reflexivity. Defined.

(** X7. [from_html_hex] raises [AssertionError] exactly when the text does
    not start with [#] or is not seven characters long; a text that passes
    both assertions is either parsed or refused with [ValueError] or
    [IndexError]. *)
Theorem from_html_hex_assertion (hex : string) :
  Color.from_html_hex hex = inl AssertionError
  <-> String.prefix "#" hex = false \/ String.length hex <> 7%nat.
Proof.
  rewrite from_html_hex_unfold.
  destruct (String.prefix "#" hex); simpl; [|split; auto].
  destruct (Nat.eqb_spec (String.length hex) 7) as [Hlen|Hlen]; simpl.
  - split.
    + destruct (Color.fromhex (Color.tail hex)) as [e|bytes] eqn:Hbytes.
      * intros [= ->]. apply fromhex_error in Hbytes. discriminate Hbytes.
      * destruct bytes as [|r [|g [|b rest]]]; discriminate.
    + intros [H|H]; [discriminate H|contradiction].
  - split; auto.
Qed.

(** X8. Formatting a parsed colour gives the text back in lower case:
    when [from_html_hex] accepts a text, [to_html_hex] of the colour is
    that text with the letters A to F lowered. *)
Theorem html_hex_canonical (hex : string) (c : Color.t) :
  Color.from_html_hex hex = inr c ->
  Color.to_html_hex c = Color.lower hex.
Proof.
  rewrite from_html_hex_unfold.
  destruct hex as [|h s]; [discriminate|].
  cbn [String.prefix].
  destruct (ascii_dec "#" h) as [<-|Hh]; [|discriminate].
  assert (Hp : String.prefix EmptyString s = true) by (destruct s; reflexivity).
  rewrite Hp. cbn [negb].
  destruct (Nat.eqb_spec (String.length (String "#" s)) 7) as [Hlen|]; [|discriminate].
  cbn [negb Color.tail]. simpl String.length in Hlen.
  destruct (Color.fromhex s) as [e|bytes] eqn:Hbytes; [discriminate|].
  destruct (fromhex_shape _ _ (le_n _) _ Hbytes) as (_ & Hle & Htext).
  destruct bytes as [|r [|g [|b rest]]]; try discriminate.
  intros [= <-].
  destruct rest; [|simpl in Hle; lia].
  specialize (Htext ltac:(simpl; lia)).
  unfold Color.to_html_hex. cbn [Color.r Color.g Color.b Color.lower].
  rewrite Htext, !hex_text_cons.
  change (Color.lower_char "#") with "#"%char.
  cbn [String.append Color.hex_text]. f_equal.
  now rewrite append_empty.
Qed.

Lemma html_hex_canonical_witness :
  Color.to_html_hex (Color.Color 255 0 10) = Color.lower "#FF000a".
Proof. apply (html_hex_canonical "#FF000a" (Color.Color 255 0 10)). reflexivity. Defined.

(** ** Components as floats *)

Lemma components_round_trip :
  forallb component_round_trips (map Z.of_nat (seq 0 256)) = true.
Proof. vm_compute. reflexivity. Qed.

Lemma component_float (n : Z) :
  0 <= n <= 255 ->
  exists x k,
    Float.of_int n = inr x
    /\ Float.leb Float.zero (Float.div x Float.f255) = true
    /\ Float.leb (Float.div x Float.f255) Float.one = true
    /\ Float.int (Float.mul (Float.div x Float.f255) Float.f255) = inr k
    /\ Z.min 255 (Z.max 0 k) = n.
Proof.
  intros Hn.
  assert (Hin : In n (map Z.of_nat (seq 0 256))).
  { apply in_map_iff. exists (Z.to_nat n). split; [lia|]. apply in_seq. lia. }
  pose proof (proj1 (forallb_forall _ _) components_round_trip n Hin) as H.
  unfold component_round_trips in H.
  destruct (Float.of_int n) as [e|x]; [discriminate H|].
  cbv zeta in H. apply andb_prop in H as [H Hk]. apply andb_prop in H as [Hlo Hhi].
  destruct (Float.int (Float.mul (Float.div x Float.f255) Float.f255)) as [e|k] eqn:Hint;
    [discriminate Hk|].
  exists x, k.
  split; [reflexivity|].
  split; [exact Hlo|].
  split; [exact Hhi|].
  split; [exact Hint|].
  now apply Z.eqb_eq.
Qed.

(** X9. For a colour with components between 0 and 255, [to_rgb_floats]
    returns three floats between 0.0 and 1.0, and [from_rgb_floats] of
    these floats is the colour again. *)
Theorem rgb_floats_round_trip (c : Color.t) :
  Color.in_range c ->
  exists r g b,
    Color.to_rgb_floats c = inr (r, g, b)
    /\ Color.from_rgb_floats r g b = inr c
    /\ Float.leb Float.zero r = true /\ Float.leb r Float.one = true
    /\ Float.leb Float.zero g = true /\ Float.leb g Float.one = true
    /\ Float.leb Float.zero b = true /\ Float.leb b Float.one = true.
Proof.
  destruct c as [r g b]. unfold Color.in_range. cbn [Color.r Color.g Color.b].
  intros (Hr & Hg & Hb).
  destruct (component_float r Hr) as (xr & kr & Er & Lr & Ur & Ir & Cr).
  destruct (component_float g Hg) as (xg & kg & Eg & Lg & Ug & Ig & Cg).
  destruct (component_float b Hb) as (xb & kb & Eb & Lb & Ub & Ib & Cb).
  exists (Float.div xr Float.f255), (Float.div xg Float.f255), (Float.div xb Float.f255).
  split.
  { unfold Color.to_rgb_floats. cbn [Color.r Color.g Color.b].
    rewrite Er, Eg, Eb. reflexivity. }
  split.
  { unfold Color.from_rgb_floats. rewrite Ir, Ig, Ib. simpl.
    now rewrite Cr, Cg, Cb. }
  repeat split; assumption.
Qed.

Lemma rgb_floats_round_trip_witness :
  exists r g b,
    Color.to_rgb_floats (Color.Color 255 0 10) = inr (r, g, b)
    /\ Color.from_rgb_floats r g b = inr (Color.Color 255 0 10)
    /\ Float.leb Float.zero r = true /\ Float.leb r Float.one = true
    /\ Float.leb Float.zero g = true /\ Float.leb g Float.one = true
    /\ Float.leb Float.zero b = true /\ Float.leb b Float.one = true.
Proof.
  apply (rgb_floats_round_trip (Color.Color 255 0 10)).
  unfold Color.in_range. simpl. lia.
Defined.

(** ** Clamping *)

Lemma binary_round_aux_sign sx mx ex lx :
  binary_round_aux Float.prec Float.emax sx mx ex lx = S754_nan
  \/ Float.signbit (binary_round_aux Float.prec Float.emax sx mx ex lx) = sx.
Proof.
  unfold binary_round_aux.
  destruct (shr_fexp Float.prec Float.emax mx ex lx) as [mrs' e'].
  destruct (shr_fexp Float.prec Float.emax _ e' loc_Exact) as [mrs'' e''].
  destruct (shr_m mrs''); [now right| |now left].
  destruct (e'' <=? Float.emax - Float.prec); now right.
Qed.

Lemma int_signbit x k :
  Float.signbit x = true -> Float.int x = inr k -> k <= 0.
Proof.
  unfold Float.signbit, Float.int.
  destruct x as [s|s| |s m e]; try discriminate.
  - intros _ [= <-]. lia.
  - intros -> Hk. cbv zeta in Hk.
    destruct (Z.leb_spec 0 e).
    + assert (Ek : k = - (Z.pos m * 2 ^ e)) by congruence.
      assert (0 < 2 ^ e) by (apply Z.pow_pos_nonneg; lia).
      assert (0 <= Z.pos m * 2 ^ e) by (apply Z.mul_nonneg_nonneg; lia).
      lia.
    + assert (Ek : k = - (Z.pos m / 2 ^ (- e))) by congruence.
      assert (0 < 2 ^ (- e)) by (apply Z.pow_pos_nonneg; lia).
      assert (0 <= Z.pos m / 2 ^ (- e)) by (apply Z.div_pos; lia).
      lia.
Qed.

Lemma mul_f255_signbit x k :
  Float.signbit x = true ->
  Float.int (Float.mul x Float.f255) = inr k ->
  k <= 0.
Proof.
  intros Hx Hk. apply (int_signbit (Float.mul x Float.f255)); [|exact Hk].
  destruct x as [s|s| |s m e]; simpl in Hx; try discriminate; subst.
  - reflexivity.
  - unfold Float.mul, Float.f255 in *. cbn [SFmul xorb] in *.
    destruct (binary_round_aux_sign true (Z.pos (m * 8972014882652160)) (e + -45) loc_Exact)
      as [Hnan|Hsign]; [|exact Hsign].
    rewrite Hnan in Hk. discriminate Hk.
Qed.

(** X10. A component whose float has the sign bit set (a negative
    number or [-0.0]) comes out of [from_rgb_floats] as 0. *)
Theorem from_rgb_floats_negative (r g b : Float.float) (c : Color.t) :
  Color.from_rgb_floats r g b = inr c ->
  (Float.signbit r = true -> Color.r c = 0)
  /\ (Float.signbit g = true -> Color.g c = 0)
  /\ (Float.signbit b = true -> Color.b c = 0).
Proof.
  unfold Color.from_rgb_floats. simpl.
  destruct (Float.int (Float.mul r Float.f255)) as [er|r'] eqn:Hr; [discriminate|].
  destruct (Float.int (Float.mul g Float.f255)) as [eg|g'] eqn:Hg; [discriminate|].
  destruct (Float.int (Float.mul b Float.f255)) as [eb|b'] eqn:Hb; [discriminate|].
  intros [= <-]. cbn [Color.r Color.g Color.b].
  repeat split; intros Hs.
  - pose proof (mul_f255_signbit r r' Hs Hr). lia.
  - pose proof (mul_f255_signbit g g' Hs Hg). lia.
  - pose proof (mul_f255_signbit b b' Hs Hb). lia.
Qed.

Lemma from_rgb_floats_negative_witness :
  let c := Color.Color 255 0 127 in
  (Float.signbit (S754_finite false 4503599627370496 (-51)) = true -> Color.r c = 0)
  /\ (Float.signbit (S754_finite true 4503599627370496 (-52)) = true -> Color.g c = 0)
  /\ (Float.signbit (S754_finite false 4503599627370496 (-53)) = true -> Color.b c = 0).
Proof.
  apply (from_rgb_floats_negative
           (S754_finite false 4503599627370496 (-51))
           (S754_finite true 4503599627370496 (-52))
           (S754_finite false 4503599627370496 (-53))
           (Color.Color 255 0 127)).
  reflexivity.
Defined.

Lemma at_least_255_pos m e : at_least_255 m e -> 0 < m.
Proof.
  intros [Hneg Hpos]. destruct (Z.le_gt_cases e 0) as [He|He].
  - specialize (Hneg He).
    assert (0 < 2 ^ (- e)) by (apply Z.pow_pos_nonneg; lia). lia.
  - specialize (Hpos He).
    assert (0 < 2 ^ e) by (apply Z.pow_pos_nonneg; lia). nia.
Qed.

Lemma at_least_255_mono m m' e : at_least_255 m e -> m <= m' -> at_least_255 m' e.
Proof.
  intros [Hneg Hpos] Hm. split; intros He.
  - specialize (Hneg He). lia.
  - specialize (Hpos He).
    assert (0 < 2 ^ e) by (apply Z.pow_pos_nonneg; lia). nia.
Qed.

Lemma shr_fexp_at_least_255 m e l mrs e' :
  at_least_255 m e ->
  shr_fexp Float.prec Float.emax m e l = (mrs, e') ->
  at_least_255 (shr_m mrs) e'.
Proof.
  intros Hm Hshr. pose proof (at_least_255_pos m e Hm) as Hpos.
  destruct (shr_fexp_spec m e l) as (mrs0 & E & M); [lia|].
  rewrite E in Hshr. injection Hshr as <- <-. rewrite M. clear E M mrs0.
  rewrite fexp_eq.
  set (k := Z.max 0 (Z.max (Zdigits2 m + e - 53) (-1074) - e)).
  assert (Hk : 0 <= k) by (unfold k; lia).
  assert (H2k : 0 < 2 ^ k) by (apply Z.pow_pos_nonneg; lia).
  destruct Hm as [Hneg Hbig].
  destruct m as [|p|p]; try lia.
  destruct (Zdigits2_bounds p) as [Hlo _].
  split; intros He.
  - assert (He0 : e <= 0) by lia. specialize (Hneg He0).
    apply Z.div_le_lower_bound; [assumption|].
    replace (- e) with (- (e + k) + k) in Hneg by lia.
    rewrite Z.pow_add_r in Hneg by lia. lia.
  - destruct (Z.eq_dec k 0) as [Hk0|Hk0].
    + rewrite Hk0 in *. rewrite Z.pow_0_r, Z.div_1_r, Z.add_0_r in *.
      apply Hbig. lia.
    + assert (Ek : k = Zdigits2 (Z.pos p) - 53) by (unfold k in *; lia).
      assert (Hq : 2 ^ 52 <= Z.pos p / 2 ^ k).
      { apply Z.div_le_lower_bound; [assumption|].
        rewrite <- Z.pow_add_r by lia.
        replace (k + 52) with (Zdigits2 (Z.pos p) - 1) by lia. exact Hlo. }
      assert (2 ^ 1 <= 2 ^ (e + k)) by (apply Z.pow_le_mono_r; lia).
      change (2 ^ 1) with 2 in *. change (2 ^ 52) with 4503599627370496 in Hq. nia.
Qed.

Lemma binary_round_aux_at_least_255 p ex k :
  at_least_255 (Z.pos p) ex ->
  Float.int (binary_round_aux Float.prec Float.emax false (Z.pos p) ex loc_Exact) = inr k ->
  255 <= k.
Proof.
  intros Hm. unfold binary_round_aux.
  destruct (shr_fexp Float.prec Float.emax (Z.pos p) ex loc_Exact) as [mrs1 e1] eqn:E1.
  pose proof (shr_fexp_at_least_255 _ _ _ _ _ Hm E1) as H1.
  pose proof (proj1 (round_nearest_even_bounds (shr_m mrs1) (loc_of_shr_record mrs1))) as Hr.
  pose proof (at_least_255_mono _ _ _ H1 Hr) as H1'.
  destruct (shr_fexp Float.prec Float.emax
              (round_nearest_even (shr_m mrs1) (loc_of_shr_record mrs1)) e1 loc_Exact)
    as [mrs2 e2] eqn:E2.
  pose proof (shr_fexp_at_least_255 _ _ _ _ _ H1' E2) as H2.
  pose proof (at_least_255_pos _ _ H2) as Hpos.
  destruct (shr_m mrs2) as [|q|q]; try lia.
  destruct (e2 <=? Float.emax - Float.prec); [|discriminate].
  unfold Float.int. cbv zeta. destruct H2 as [Hneg Hbig].
  destruct (Z.leb_spec 0 e2) as [He|He]; intros Hk.
  - assert (Ek : k = Z.pos q * 2 ^ e2) by congruence. subst k.
    destruct (Z.eq_dec e2 0) as [->|Hne].
    + specialize (Hneg ltac:(lia)). simpl in Hneg. lia.
    + apply Hbig. lia.
  - assert (Ek : k = Z.pos q / 2 ^ (- e2)) by congruence. subst k.
    apply Z.div_le_lower_bound; [apply Z.pow_pos_nonneg; lia|].
    specialize (Hneg ltac:(lia)). lia.
Qed.

Lemma at_least_one (x : Float.float) :
  Float.valid x = true -> Float.leb Float.one x = true ->
  x = S754_infinity false
  \/ exists m e, x = S754_finite false m e /\ 2 ^ 52 <= Z.pos m /\ -52 <= e.
Proof.
  intros Hvalid Hle. unfold Float.leb, Float.one, SFleb, SFcompare in Hle.
  destruct x as [s|[|]| |[|] m e]; try discriminate; [now left|]. right.
  exists m, e. split; [reflexivity|].
  destruct (Z.compare_spec (-52) e) as [He|He|He]; try discriminate.
  - subst e. split; [|lia].
    change (Pos.compare_cont Eq 4503599627370496 m) with (Pos.compare 4503599627370496 m) in Hle.
    destruct (Pos.compare_spec 4503599627370496 m) as [Hm|Hm|Hm]; try discriminate.
    + subst m. reflexivity.
    + change (2 ^ 52) with (Z.pos 4503599627370496). lia.
  - split; [|lia].
    unfold Float.valid, valid_binary, bounded, canonical_mantissa in Hvalid.
    apply andb_prop in Hvalid as [Hcanon _]. apply Z.eqb_eq in Hcanon.
    rewrite fexp_eq in Hcanon.
    destruct (Zdigits2_bounds m) as [Hlo _].
    replace (Zdigits2 (Z.pos m)) with 53 in Hlo by (unfold Zdigits2; lia).
    exact Hlo.
Qed.

Lemma mul_f255_at_least (x : Float.float) (k : Z) :
  Float.valid x = true -> Float.leb Float.one x = true ->
  Float.int (Float.mul x Float.f255) = inr k ->
  255 <= k.
Proof.
  intros Hvalid Hle Hk.
  destruct (at_least_one x Hvalid Hle) as [->|(m & e & -> & Hm & He)];
    [discriminate Hk|].
  unfold Float.mul, Float.f255 in Hk. cbn [SFmul xorb] in Hk.
  apply (binary_round_aux_at_least_255 (m * 8972014882652160) (e + -45) k); [|exact Hk].
  rewrite Pos2Z.inj_mul.
  change (Z.pos 8972014882652160) with (255 * 2 ^ 45).
  split; intros He'.
  - assert (H97 : 2 ^ (- (e + -45)) <= 2 ^ 97) by (apply Z.pow_le_mono_r; lia).
    assert (0 < 2 ^ (- (e + -45))) by (apply Z.pow_pos_nonneg; lia).
    change (2 ^ 97) with (2 ^ 52 * 2 ^ 45) in H97.
    assert (0 < 2 ^ 45) by reflexivity. assert (0 < 2 ^ 52) by reflexivity. nia.
  - assert (0 < 2 ^ (e + -45)) by (apply Z.pow_pos_nonneg; lia).
    assert (0 < 2 ^ 45) by reflexivity. assert (0 < 2 ^ 52) by reflexivity. nia.
Qed.

(** X11. A component whose float is at least 1.0 comes out of
    [from_rgb_floats] as 255, whenever the call returns. *)
Theorem from_rgb_floats_saturates (r g b : Float.float) (c : Color.t) :
  Color.from_rgb_floats r g b = inr c ->
  (Float.valid r = true -> Float.leb Float.one r = true -> Color.r c = 255)
  /\ (Float.valid g = true -> Float.leb Float.one g = true -> Color.g c = 255)
  /\ (Float.valid b = true -> Float.leb Float.one b = true -> Color.b c = 255).
Proof.
  unfold Color.from_rgb_floats. simpl.
  destruct (Float.int (Float.mul r Float.f255)) as [er|r'] eqn:Hr; [discriminate|].
  destruct (Float.int (Float.mul g Float.f255)) as [eg|g'] eqn:Hg; [discriminate|].
  destruct (Float.int (Float.mul b Float.f255)) as [eb|b'] eqn:Hb; [discriminate|].
  intros [= <-]. cbn [Color.r Color.g Color.b].
  repeat split; intros Hv Hle.
  - pose proof (mul_f255_at_least r r' Hv Hle Hr). lia.
  - pose proof (mul_f255_at_least g g' Hv Hle Hg). lia.
  - pose proof (mul_f255_at_least b b' Hv Hle Hb). lia.
Qed.

Lemma from_rgb_floats_saturates_witness :
  let c := Color.Color 255 0 127 in
  (Float.valid (S754_finite false 4503599627370496 (-51)) = true ->
   Float.leb Float.one (S754_finite false 4503599627370496 (-51)) = true ->
   Color.r c = 255)
  /\ (Float.valid (S754_finite true 4503599627370496 (-52)) = true ->
      Float.leb Float.one (S754_finite true 4503599627370496 (-52)) = true ->
      Color.g c = 255)
  /\ (Float.valid (S754_finite false 4503599627370496 (-53)) = true ->
      Float.leb Float.one (S754_finite false 4503599627370496 (-53)) = true ->
      Color.b c = 255).
Proof.
  apply (from_rgb_floats_saturates
           (S754_finite false 4503599627370496 (-51))
           (S754_finite true 4503599627370496 (-52))
           (S754_finite false 4503599627370496 (-53))
           (Color.Color 255 0 127)).
  reflexivity.
Defined.

(** ** Clamping saturation and lightness *)

Lemma leb_refl (x : Float.float) : x <> S754_nan -> Float.leb x x = true.
Proof.
  unfold Float.leb, SFleb, SFcompare.
  destruct x as [s|[|]| |[|] m e]; try reflexivity; try congruence; intros _;
    rewrite Z.compare_refl;
    change (Pos.compare_cont Eq m m) with (Pos.compare m m);
    now rewrite Pos.compare_refl.
Qed.

Lemma ltb_leb (x y : Float.float) : Float.ltb x y = true -> Float.leb x y = true.
Proof.
  unfold Float.ltb, Float.leb, SFltb, SFleb.
  destruct (SFcompare x y) as [[| |]|]; try discriminate; reflexivity.
Qed.

Lemma leb_not_nan (x y : Float.float) :
  Float.leb x y = true -> x <> S754_nan /\ y <> S754_nan.
Proof.
  unfold Float.leb, SFleb, SFcompare.
  destruct x as [s|s| |s m e]; destruct y as [s'|s'| |s' m' e']; try discriminate;
    intros _; split; discriminate.
Qed.

(** X12. The expression [min(hi, max(lo, s))] of [clamp_saturation] and
    [clamp_lightness] lies between the bounds for every float [s], a NaN
    included, as soon as [lo <= hi]. *)
Theorem clamp_within (lo hi s : Float.float) :
  Float.leb lo hi = true ->
  Float.leb lo (Float.min hi (Float.max lo s)) = true
  /\ Float.leb (Float.min hi (Float.max lo s)) hi = true.
Proof.
  intros Hle. destruct (leb_not_nan lo hi Hle) as [Hlo Hhi].
  unfold Float.min, Float.max.
  destruct (Float.ltb lo s) eqn:Hs.
  - destruct (Float.ltb s hi) eqn:Ht.
    + split; now apply ltb_leb.
    + split; [exact Hle|now apply leb_refl].
  - destruct (Float.ltb lo hi) eqn:Ht.
    + split; [now apply leb_refl|exact Hle].
    + split; [exact Hle|now apply leb_refl].
Qed.

Lemma clamp_within_witness :
  Float.leb Float.zero (Float.min Float.one (Float.max Float.zero S754_nan)) = true
  /\ Float.leb (Float.min Float.one (Float.max Float.zero S754_nan)) Float.one = true.
Proof. apply (clamp_within Float.zero Float.one S754_nan). reflexivity. Defined.

Section ColorsysFacts.

Variable rgb_to_hls :
  Float.float -> Float.float -> Float.float ->
  Exception + Float.float * Float.float * Float.float.
Variable hls_to_rgb :
  Float.float -> Float.float -> Float.float ->
  Exception + Float.float * Float.float * Float.float.

(** X13. Whatever [colorsys] computes, a colour that [clamp_saturation]
    or [clamp_lightness] returns has its three components between 0 and
    255. *)
Theorem clamp_returns_valid_color (self : Color.t) (lo hi : Float.float) :
  (forall c, Color.clamp_saturation rgb_to_hls hls_to_rgb self lo hi = inr c ->
             Color.in_range c)
  /\ (forall c, Color.clamp_lightness rgb_to_hls hls_to_rgb self lo hi = inr c ->
                Color.in_range c).
Proof.
  unfold Color.clamp_saturation, Color.clamp_lightness. simpl.
  destruct (Color.to_rgb_floats self) as [e|[[r g] b]]; [split; discriminate|].
  destruct (rgb_to_hls r g b) as [e|[[h l] s]]; [split; discriminate|].
  split; intros c H.
  - destruct (hls_to_rgb h l (Float.min hi (Float.max lo s))) as [e|[[r' g'] b']];
      [discriminate H|].
    now apply (from_rgb_floats_clamps r' g' b').
  - destruct (hls_to_rgb h (Float.min hi (Float.max lo l)) s) as [e|[[r' g'] b']];
      [discriminate H|].
    now apply (from_rgb_floats_clamps r' g' b').
Qed.

End ColorsysFacts.

(** * Properties of the market route *)

Lemma reciprocals_length : List.length Market.reciprocals = 99%nat.
Proof. reflexivity. Qed.

Lemma comprehension_truediv (total : Float.float) (ps : list Float.float) :
  Market.comprehension (fun p => Float.truediv p total) ps
  = if Float.is_zero total
    then match ps with [] => Some [] | _ :: _ => None end
    else Some (map (fun p => Float.div p total) ps).
Proof.
  unfold Float.truediv.
  destruct (Float.is_zero total); induction ps as [|p ps IH]; simpl; try reflexivity.
  now rewrite IH.
Qed.

(** X14. The placeholder probabilities of [route_get_market]: the list
    has one entry per outcome but never more than 99; no division happens
    for a market without outcomes; and the only failure is the division by
    a total that is zero. *)
Theorem probabilities_bounded (sum : list Float.float -> Float.float) (outcomes : nat) :
  (Market.probabilities sum outcomes = None
   <-> (0 < outcomes)%nat
       /\ Float.is_zero (sum (firstn outcomes Market.reciprocals)) = true)
  /\ (forall ps, Market.probabilities sum outcomes = Some ps ->
      List.length ps = Nat.min outcomes 99).
Proof.
  unfold Market.probabilities. cbv zeta. rewrite comprehension_truediv.
  destruct (Float.is_zero (sum (firstn outcomes Market.reciprocals))) eqn:Hzero.
  - destruct outcomes as [|n].
    + simpl. split; [split; [discriminate|intros [H _]; lia]|].
      intros ps [= <-]. reflexivity.
    + change (firstn (S n) Market.reciprocals) with
        (hd Float.zero Market.reciprocals :: firstn n (tl Market.reciprocals)).
      split; [split; [intros _; split; [lia|reflexivity]|reflexivity]|discriminate].
  - split; [split; [discriminate|intros [_ H]; discriminate H]|].
    intros ps [= <-]. now rewrite length_map, length_firstn, reciprocals_length.
Qed.

Example three_outcomes :
  firstn 3 Market.reciprocals
  = [S754_finite false 4503599627370496 (-52);
     S754_finite false 4503599627370496 (-53);
     S754_finite false 6004799503160661 (-54)].
Proof. reflexivity. Qed.
